(** * Batch-collapse retention: a shallow embedding of [retention.go]

    The repository holds two generations of the same primitive:
    - the keyed engine ([Values map[string]interface{}], module [Keyed]);
    - the earlier single-slot engine ([Value interface{}], module
      [SingleSlot]).

    Both are translated statement by statement.

    - Time.  [time.Time] and [time.Duration] are integers.  Each call of
      [time.Now()] is a separate reading of a clock oracle, so that the
      two readings of one condition, or of one flush, may differ.
    - Callback.  [ExecuteFunc] is an optional function on a user state;
      its invocations are recorded in a ghost trace.
    - Concurrency.  Code that runs while [bc.mutex] is held is one atomic
      operation; the goroutines (the driver loop, the callers of
      [Collapse] and [Cancel], the signal handler) are interleaved as a
      sequence of such operations.
    - Map iteration.  The order of [range] over a Go map is not fixed: a
      pass takes the order as an argument. *)

From Stdlib Require Import ZArith Lia.
From stdpp Require Import gmap strings list fin_maps.

Open Scope Z_scope.

(** ** Time

    [time.Time] and [time.Duration] are integers (nanoseconds);
    [Time.Add] is addition and [Time.Before] is strict less-than. *)

Definition Time : Type := Z.
Definition Duration : Type := Z.

Definition Time_Add (t : Time) (d : Duration) : Time := t + d.
Definition Time_Before (t u : Time) : bool := t <? u.

(** ** The world outside the engine

    A payload of static type [interface{}] is [iface payload]: [None] is
    the nil interface.  Every call of [time.Now()] consumes one reading of
    the wall clock; the readings are given by an oracle [clock], indexed by
    the number of readings made so far.  The user callback [ExecuteFunc]
    acts on a user state of type [Ext]; [calls] is the ghost trace of its
    invocations, oldest first.  An engine chooses what it records for an
    invocation (type [call]): the keyed engine records the key with the
    argument, the single-slot engine the argument. *)

Definition iface (payload : Type) : Type := option payload.

Section WorldModel.
Variables Ext call : Type.

Record World : Type := mkWorld {
  clock : nat -> Time;
  reads : nat;
  ext   : Ext;
  calls : list call
}.

(** State-passing computations over the world. *)
Definition M (A : Type) : Type := World -> A * World.

Definition ret {A : Type} (a : A) : M A := fun w => (a, w).

Definition bind {A B : Type} (c : M A) (k : A -> M B) : M B :=
  fun w => let (a, w') := c w in k a w'.

(** [time.Now()] *)
Definition time_Now : M Time :=
  fun w => (clock w (reads w),
            mkWorld (clock w) (S (reads w)) (ext w) (calls w)).

(** A call of the user callback: [g] is its effect on the user state,
    [c] the record of the call. *)
Definition invoke (g : Ext -> Ext) (c : call) : M unit :=
  fun w => (tt, mkWorld (clock w) (reads w) (g (ext w)) (calls w ++ [c])).

(** The clock stands still: from the next reading on it shows [now]. *)
Definition steady (now : Time) (w : World) : Prop :=
  forall i : nat, (reads w <= i)%nat -> clock w i = now.

(** The instant the next call of [time.Now()] returns. *)
Definition now_of (w : World) : Time := clock w (reads w).

(** The invocations made after [w], up to [w']. *)
Definition since (w w' : World) : list call :=
  drop (length (calls w)) (calls w').
End WorldModel.

Arguments mkWorld {Ext call}.
Arguments clock {Ext call}.
Arguments reads {Ext call}.
Arguments ext {Ext call}.
Arguments calls {Ext call}.
Arguments ret {Ext call A}.
Arguments bind {Ext call A B}.
Arguments time_Now {Ext call}.
Arguments invoke {Ext call}.
Arguments steady {Ext call}.
Arguments since {Ext call}.
Arguments now_of {Ext call}.

Notation "x <- c ;; k" := (bind c (fun x => k))
  (at level 100, c at next level, right associativity).

(** ** Timing policy, in the words of the specification *)

(** [shouldFlush(now, lastExec, nextExec, maxDuration, force)]:
    [force OR now > nextExec OR now > lastExec + maxDuration]. *)
Definition spec_shouldFlush
    (now lastExec nextExec : Time) (maxDuration : Duration) (force : bool) : bool :=
  force || (nextExec <? now) || (lastExec + maxDuration <? now).

(** ** The keyed engine (first file of [retention.go]) *)

Module Keyed.
Section Engine.
Variables payload Ext : Type.

Record Config : Type := mkConfig {
  RetentionDuration : Duration;
  MaxDuration       : Duration;
  ExecuteFunc       : option (iface payload -> Ext -> Ext);
  RegisterShutdown  : bool
}.

(** [ctxDone] is the state of the context that [ctxCancel] cancels;
    [conf] is the embedded [Config]. *)
Record BatchCollapse : Type := mkBatchCollapse {
  Values     : gmap string (iface payload);
  IsCanceled : bool;
  conf       : Config;
  lastExec   : Time;
  nextExec   : Time;
  ctxDone    : bool
}.

Definition set_Values (m : gmap string (iface payload)) (bc : BatchCollapse) :=
  mkBatchCollapse m (IsCanceled bc) (conf bc) (lastExec bc) (nextExec bc) (ctxDone bc).
Definition set_IsCanceled (b : bool) (bc : BatchCollapse) :=
  mkBatchCollapse (Values bc) b (conf bc) (lastExec bc) (nextExec bc) (ctxDone bc).
Definition set_lastExec (t : Time) (bc : BatchCollapse) :=
  mkBatchCollapse (Values bc) (IsCanceled bc) (conf bc) t (nextExec bc) (ctxDone bc).
Definition set_nextExec (t : Time) (bc : BatchCollapse) :=
  mkBatchCollapse (Values bc) (IsCanceled bc) (conf bc) (lastExec bc) t (ctxDone bc).
Definition set_ctxDone (b : bool) (bc : BatchCollapse) :=
  mkBatchCollapse (Values bc) (IsCanceled bc) (conf bc) (lastExec bc) (nextExec bc) b.

(** [CreateBatchCollapse]: the map is empty, the two watermarks come from
    two readings of the clock, the context is live.  The driver loop and
    the signal handler started here are operations of [op] below. *)
Definition CreateBatchCollapse (c : Config)
    : M Ext (string * iface payload) BatchCollapse :=
  t1 <- time_Now ;;
  t2 <- time_Now ;;
  ret (mkBatchCollapse ∅ false c t1 (Time_Add t2 (RetentionDuration c)) false).

(** [KeyExists]: [_, ok := bc.Values[key]; return ok] *)
Definition KeyExists (bc : BatchCollapse) (key : string) : bool :=
  match Values bc !! key with
  | Some _ => true
  | None => false
  end.

(** [Collapse] *)
Definition Collapse (key : string) (value : iface payload) (bc : BatchCollapse)
    : M Ext (string * iface payload) BatchCollapse :=
  let bc1 :=
    if negb (KeyExists bc key)
    then set_Values (<[key := value]> (Values bc)) bc
    else bc in
  now <- time_Now ;;
  ret (set_nextExec (Time_Add now (RetentionDuration (conf bc1))) bc1).

(** The timing disjunction of [doProcess], with Go's short-circuit
    evaluation: a clock reading is taken only when its disjunct is
    reached. *)
Definition timeCondition (forceProcess : bool) (bc : BatchCollapse)
    : M Ext (string * iface payload) bool :=
  if forceProcess then ret true
  else
    t1 <- time_Now ;;
    if Time_Before (nextExec bc) t1 then ret true
    else
      t2 <- time_Now ;;
      ret (Time_Before (Time_Add (lastExec bc) (MaxDuration (conf bc))) t2).

(** The body of the [range] loop of [doProcess] for one produced pair. *)
Definition doProcess_entry (forceProcess : bool) (key : string)
    (value : iface payload) (bc : BatchCollapse)
    : M Ext (string * iface payload) BatchCollapse :=
  if KeyExists bc key then
    match ExecuteFunc (conf bc) with
    | Some f =>
        go <- timeCondition forceProcess bc ;;
        if go then
          _ <- invoke (f value) (key, value) ;;
          t1 <- time_Now ;;
          t2 <- time_Now ;;
          ret (set_Values (delete key (Values bc))
                 (set_nextExec (Time_Add t2 (RetentionDuration (conf bc)))
                    (set_lastExec t1 bc)))
        else ret bc
    | None => ret bc
    end
  else ret bc.

(** [for key, value := range bc.Values].  Go fixes no iteration order:
    [order] is the order the runtime picks for this loop.  A key is
    produced, with the value it has at that moment, only if it is still
    in the map when its turn comes. *)
Fixpoint range_Values (forceProcess : bool) (order : list string)
    (bc : BatchCollapse) : M Ext (string * iface payload) BatchCollapse :=
  match order with
  | [] => ret bc
  | key :: rest =>
      match Values bc !! key with
      | Some value =>
          bc' <- doProcess_entry forceProcess key value bc ;;
          range_Values forceProcess rest bc'
      | None => range_Values forceProcess rest bc
      end
  end.

(** [doProcess] *)
Definition doProcess (forceProcess : bool) (order : list string)
    (bc : BatchCollapse) : M Ext (string * iface payload) BatchCollapse :=
  range_Values forceProcess order bc.

(** [Cancel]: [bc.ctxCancel(); bc.doProcess(true); bc.IsCanceled = true] *)
Definition Cancel (order : list string) (bc : BatchCollapse)
    : M Ext (string * iface payload) BatchCollapse :=
  bc1 <- ret (set_ctxDone true bc) ;;
  bc2 <- doProcess true order bc1 ;;
  ret (set_IsCanceled true bc2).

(** One turn of the loop of [executeIfCompleted], after its sleep: leave
    when the context is done, otherwise [bc.doProcess(false)].  The
    boolean tells whether the loop goes on. *)
Definition executeIfCompleted_turn (order : list string) (bc : BatchCollapse)
    : M Ext (string * iface payload) (bool * BatchCollapse) :=
  if ctxDone bc then ret (false, bc)
  else
    bc' <- doProcess false order bc ;;
    ret (true, bc').

(** The orders a [range] over the current map may take: each key of the
    map once. *)
Definition order_of (bc : BatchCollapse) (order : list string) : Prop :=
  NoDup order /\ (list_to_set order : gset string) = dom (Values bc).

(** Operations on one engine, as the goroutines interleave them. *)
Inductive op : Type :=
| OpCollapse (key : string) (value : iface payload)
| OpTurn (order : list string)
| OpCancel (order : list string).

Definition system : Type := BatchCollapse * World Ext (string * iface payload).

Definition step (o : op) (s : system) : system :=
  match o with
  | OpCollapse key value => Collapse key value (fst s) (snd s)
  | OpTurn order =>
      let (r, w) := executeIfCompleted_turn order (fst s) (snd s) in (snd r, w)
  | OpCancel order => Cancel order (fst s) (snd s)
  end.

Definition run (ops : list op) (s : system) : system :=
  fold_left (fun s o => step o s) ops s.
End Engine.

Arguments mkConfig {payload Ext}.
Arguments RetentionDuration {payload Ext}.
Arguments MaxDuration {payload Ext}.
Arguments ExecuteFunc {payload Ext}.
Arguments RegisterShutdown {payload Ext}.
Arguments mkBatchCollapse {payload Ext}.
Arguments Values {payload Ext}.
Arguments IsCanceled {payload Ext}.
Arguments conf {payload Ext}.
Arguments lastExec {payload Ext}.
Arguments nextExec {payload Ext}.
Arguments ctxDone {payload Ext}.
Arguments set_Values {payload Ext}.
Arguments set_IsCanceled {payload Ext}.
Arguments set_lastExec {payload Ext}.
Arguments set_nextExec {payload Ext}.
Arguments set_ctxDone {payload Ext}.
Arguments CreateBatchCollapse {payload Ext}.
Arguments KeyExists {payload Ext}.
Arguments Collapse {payload Ext}.
Arguments timeCondition {payload Ext}.
Arguments doProcess_entry {payload Ext}.
Arguments range_Values {payload Ext}.
Arguments doProcess {payload Ext}.
Arguments Cancel {payload Ext}.
Arguments executeIfCompleted_turn {payload Ext}.
Arguments order_of {payload Ext}.
Arguments OpCollapse {payload}.
Arguments OpTurn {payload}.
Arguments OpCancel {payload}.
Arguments step {payload Ext}.
Arguments run {payload Ext}.
End Keyed.

(** ** The single-slot engine (second file of [retention.go]) *)

Module SingleSlot.
Section Engine.
Variables payload Ext : Type.

Record Config : Type := mkConfig {
  RetentionDuration : Duration;
  MaxDuration       : Duration;
  ExecuteFunc       : option (iface payload -> Ext -> Ext)
}.

(** [Value bc = None] is [bc.Value == nil]: the slot holds nothing. *)
Record BatchCollapse : Type := mkBatchCollapse {
  Value     : iface payload;
  conf       : Config;
  IsCanceled : bool;
  lastExec   : Time;
  nextExec   : Time;
  ctxDone    : bool
}.

Definition set_Value (v : iface payload) (bc : BatchCollapse) :=
  mkBatchCollapse v (conf bc) (IsCanceled bc) (lastExec bc) (nextExec bc) (ctxDone bc).
Definition set_IsCanceled (b : bool) (bc : BatchCollapse) :=
  mkBatchCollapse (Value bc) (conf bc) b (lastExec bc) (nextExec bc) (ctxDone bc).
Definition set_lastExec (t : Time) (bc : BatchCollapse) :=
  mkBatchCollapse (Value bc) (conf bc) (IsCanceled bc) t (nextExec bc) (ctxDone bc).
Definition set_nextExec (t : Time) (bc : BatchCollapse) :=
  mkBatchCollapse (Value bc) (conf bc) (IsCanceled bc) (lastExec bc) t (ctxDone bc).
Definition set_ctxDone (b : bool) (bc : BatchCollapse) :=
  mkBatchCollapse (Value bc) (conf bc) (IsCanceled bc) (lastExec bc) (nextExec bc) b.

(** [bc.Value != nil] *)
Definition notNil (v : iface payload) : bool :=
  match v with
  | Some _ => true
  | None => false
  end.

(** [CreateBatchCollapse] *)
Definition CreateBatchCollapse (c : Config) : M Ext (iface payload) BatchCollapse :=
  t1 <- time_Now ;;
  t2 <- time_Now ;;
  ret (mkBatchCollapse None c false t1 (Time_Add t2 (RetentionDuration c)) false).

(** [Collapse] *)
Definition Collapse (value : iface payload) (bc : BatchCollapse)
    : M Ext (iface payload) BatchCollapse :=
  let bc1 := if negb (notNil (Value bc)) then set_Value value bc else bc in
  now <- time_Now ;;
  ret (set_nextExec (Time_Add now (RetentionDuration (conf bc1))) bc1).

(** The timing disjunction of the closure [doProcess], short-circuit. *)
Definition timeCondition (bc : BatchCollapse) : M Ext (iface payload) bool :=
  t1 <- time_Now ;;
  if Time_Before (nextExec bc) t1 then ret true
  else
    t2 <- time_Now ;;
    ret (Time_Before (Time_Add (lastExec bc) (MaxDuration (conf bc))) t2).

(** The closure [doProcess] of [executeIfCompleted]. *)
Definition doProcess (bc : BatchCollapse) : M Ext (iface payload) BatchCollapse :=
  if notNil (Value bc) then
    match ExecuteFunc (conf bc) with
    | Some f =>
        go <- timeCondition bc ;;
        if go then
          _ <- invoke (f (Value bc)) (Value bc) ;;
          t1 <- time_Now ;;
          t2 <- time_Now ;;
          ret (set_Value None
                 (set_nextExec (Time_Add t2 (RetentionDuration (conf bc)))
                    (set_lastExec t1 bc)))
        else ret bc
    | None => ret bc
    end
  else ret bc.

(** One turn of the loop of [executeIfCompleted], after its sleep. *)
Definition executeIfCompleted_turn (bc : BatchCollapse)
    : M Ext (iface payload) (bool * BatchCollapse) :=
  if ctxDone bc then ret (false, bc)
  else
    bc' <- doProcess bc ;;
    ret (true, bc').

(** [Cancel]: the context is cancelled, the callback is called on a
    non-nil value, and [IsCanceled] is set.  Nothing else is written. *)
Definition Cancel (bc : BatchCollapse) : M Ext (iface payload) BatchCollapse :=
  bc1 <- ret (set_ctxDone true bc) ;;
  _ <- (if notNil (Value bc1) then
          match ExecuteFunc (conf bc1) with
          | Some f => invoke (f (Value bc1)) (Value bc1)
          | None => ret tt
          end
        else ret tt) ;;
  ret (set_IsCanceled true bc1).

Inductive op : Type :=
| OpCollapse (value : iface payload)
| OpTurn
| OpCancel.

Definition system : Type := BatchCollapse * World Ext (iface payload).

Definition step (o : op) (s : system) : system :=
  match o with
  | OpCollapse value => Collapse value (fst s) (snd s)
  | OpTurn =>
      let (r, w) := executeIfCompleted_turn (fst s) (snd s) in (snd r, w)
  | OpCancel => Cancel (fst s) (snd s)
  end.

Definition run (ops : list op) (s : system) : system :=
  fold_left (fun s o => step o s) ops s.
End Engine.

Arguments mkConfig {payload Ext}.
Arguments RetentionDuration {payload Ext}.
Arguments MaxDuration {payload Ext}.
Arguments ExecuteFunc {payload Ext}.
Arguments mkBatchCollapse {payload Ext}.
Arguments Value {payload Ext}.
Arguments IsCanceled {payload Ext}.
Arguments conf {payload Ext}.
Arguments lastExec {payload Ext}.
Arguments nextExec {payload Ext}.
Arguments ctxDone {payload Ext}.
Arguments set_Value {payload Ext}.
Arguments set_IsCanceled {payload Ext}.
Arguments set_lastExec {payload Ext}.
Arguments set_nextExec {payload Ext}.
Arguments set_ctxDone {payload Ext}.
Arguments notNil {payload}.
Arguments CreateBatchCollapse {payload Ext}.
Arguments Collapse {payload Ext}.
Arguments timeCondition {payload Ext}.
Arguments doProcess {payload Ext}.
Arguments executeIfCompleted_turn {payload Ext}.
Arguments Cancel {payload Ext}.
Arguments OpCollapse {payload}.
Arguments OpTurn {payload}.
Arguments OpCancel {payload}.
Arguments step {payload Ext}.
Arguments run {payload Ext}.
End SingleSlot.

(** ** Observations on traces *)

(** The arguments the callback received for key [K], oldest first. *)
Definition delivered_for {payload : Type} (K : string)
    (l : list (string * iface payload)) : list (iface payload) :=
  snd <$> filter (fun c => fst c = K) l.

(** The pairs that the [Collapse] calls among [ops] put into the map: a
    call stores its value exactly when its key is absent at that moment. *)
Fixpoint accepted {payload Ext : Type} (ops : list (Keyed.op payload))
    (s : Keyed.system payload Ext) : list (string * iface payload) :=
  match ops with
  | [] => []
  | o :: ops' =>
      match o with
      | Keyed.OpCollapse key value =>
          if Keyed.KeyExists (fst s) key then [] else [(key, value)]
      | _ => []
      end ++ accepted ops' (Keyed.step o s)
  end.

(** The state a flush of [key] leaves when the two readings of the clock
    after the callback are [t1] and [t2]. *)
Definition keyed_flushed {payload Ext : Type} (key : string) (t1 t2 : Time)
    (bc : Keyed.BatchCollapse payload Ext) : Keyed.BatchCollapse payload Ext :=
  Keyed.set_Values (delete key (Keyed.Values bc))
    (Keyed.set_nextExec (Time_Add t2 (Keyed.RetentionDuration (Keyed.conf bc)))
       (Keyed.set_lastExec t1 bc)).

Definition single_flushed {payload Ext : Type} (t1 t2 : Time)
    (bc : SingleSlot.BatchCollapse payload Ext) : SingleSlot.BatchCollapse payload Ext :=
  SingleSlot.set_Value None
    (SingleSlot.set_nextExec
       (Time_Add t2 (SingleSlot.RetentionDuration (SingleSlot.conf bc)))
       (SingleSlot.set_lastExec t1 bc)).

(** An operation other than [Cancel]. *)
Definition keyed_not_cancel {payload : Type} (o : Keyed.op payload) : bool :=
  match o with
  | Keyed.OpCancel _ => false
  | _ => true
  end.

Definition single_not_cancel {payload : Type} (o : SingleSlot.op payload) : bool :=
  match o with
  | SingleSlot.OpCancel => false
  | _ => true
  end.

(** ** Concrete engines: the configurations of the test file

    Payloads are integers; the callback of the tests overwrites the
    tester's integer with 11.  [test_world] has a clock that stands still,
    [ticking_world] one that advances by 1000 at every reading. *)

Definition test_callback : iface Z -> Z -> Z := fun _ _ => 11.

Definition keyed_conf (f : option (iface Z -> Z -> Z)) : Keyed.Config Z Z :=
  Keyed.mkConfig 5000 60000 f false.

Definition single_conf (f : option (iface Z -> Z -> Z)) : SingleSlot.Config Z Z :=
  SingleSlot.mkConfig 5000 60000 f.

Definition keyed_world : World Z (string * iface Z) :=
  mkWorld (fun _ => 1000) 0%nat 10 [].

Definition keyed_ticking_world : World Z (string * iface Z) :=
  mkWorld (fun i => 1000 * Z.of_nat i) 0%nat 10 [].

Definition single_world : World Z (iface Z) :=
  mkWorld (fun _ => 1000) 0%nat 10 [].

Definition single_ticking_world : World Z (iface Z) :=
  mkWorld (fun i => 1000 * Z.of_nat i) 0%nat 10 [].

(** An engine with one pending entry, and one after [Cancel]. *)
Definition keyed_pending (f : option (iface Z -> Z -> Z)) : Keyed.system Z Z :=
  Keyed.run [Keyed.OpCollapse "a" (Some 10)]
    (Keyed.CreateBatchCollapse (keyed_conf f) keyed_world).

Definition keyed_canceled : Keyed.system Z Z :=
  Keyed.run [Keyed.OpCancel []]
    (Keyed.CreateBatchCollapse (keyed_conf (Some test_callback)) keyed_ticking_world).

Definition single_pending (f : option (iface Z -> Z -> Z)) : SingleSlot.system Z Z :=
  SingleSlot.run [SingleSlot.OpCollapse (Some 10)]
    (SingleSlot.CreateBatchCollapse (single_conf f) single_world).

Definition single_canceled : SingleSlot.system Z Z :=
  SingleSlot.run [SingleSlot.OpCancel]
    (SingleSlot.CreateBatchCollapse (single_conf (Some test_callback))
       single_ticking_world).

(** Engines with a pending 10 that is overdue.  On [jump_clock] the
    engine is created and 10 collapsed at instant 1000 (three readings),
    which puts [nextExec] at 6000; from then on the clock stands at 7000.
    On [drift_clock] every reading is 6000 later than the one before. *)
Definition jump_clock (i : nat) : Time := if (i <? 3)%nat then 1000 else 7000.

Definition drift_clock (i : nat) : Time := 1000 + 6000 * Z.of_nat i.

Definition keyed_overdue (clk : nat -> Time) : Keyed.system Z Z :=
  Keyed.run [Keyed.OpCollapse "a" (Some 10)]
    (Keyed.CreateBatchCollapse (keyed_conf (Some test_callback))
       (mkWorld clk 0%nat 10 [])).

Definition single_overdue (clk : nat -> Time) : SingleSlot.system Z Z :=
  SingleSlot.run [SingleSlot.OpCollapse (Some 10)]
    (SingleSlot.CreateBatchCollapse (single_conf (Some test_callback))
       (mkWorld clk 0%nat 10 [])).

(** The scenarios of [TestExec] and [TestExecMulti], times in
    milliseconds.  [TestExec]: retention 1; the engine is created and 10
    collapsed at instant 0 (three readings), the loop wakes at instant 10.
    [TestExecMulti]: retention 5; creation and three collapses at instant 0
    (five readings), the loop wakes at instant 5 (two readings) and again
    at instant 15. *)
Definition exec_world : World Z (iface Z) :=
  mkWorld (fun i => if (i <? 3)%nat then 0 else 10) 0%nat 10 [].

Definition multi_world : World Z (iface Z) :=
  mkWorld (fun i => if (i <? 5)%nat then 0 else if (i <? 7)%nat then 5 else 15)
    0%nat 10 [].

Definition exec_conf (retention : Duration) : SingleSlot.Config Z Z :=
  SingleSlot.mkConfig retention 60000 (Some test_callback).

(** Two keys pending in the keyed engine, collapsed at instant 1000 (four
    readings with the creation); then the clock stands at 7000. *)
Definition keyed_two_pending : Keyed.system Z Z :=
  Keyed.run [Keyed.OpCollapse "a" (Some 10); Keyed.OpCollapse "b" (Some 20)]
    (Keyed.CreateBatchCollapse (keyed_conf (Some test_callback))
       (mkWorld (fun i => if (i <? 4)%nat then 1000 else 7000) 0%nat 10 [])).

Definition keyed_fresh (f : option (iface Z -> Z -> Z)) : Keyed.system Z Z :=
  Keyed.CreateBatchCollapse (keyed_conf f) keyed_world.

Definition single_fresh (f : option (iface Z -> Z -> Z)) : SingleSlot.system Z Z :=
  SingleSlot.CreateBatchCollapse (single_conf f) single_world.

(** ** The shutdown goroutines started by [CreateBatchCollapse]

    Each engine starts one goroutine that receives one signal from its
    channel, runs a [switch] on it and ends.  [signal.Notify] forwards to
    the channel only the signals it was given. *)

Inductive Signal : Type := Interrupt | SIGTERM | SIGKILL | OtherSignal.







(** Single-slot engine: [signal.Notify(ch, os.Interrupt, SIGTERM)]. *)
Definition single_notified (sig : Signal) : bool :=
  match sig with
  | Interrupt | SIGTERM => true
  | SIGKILL | OtherSignal => false
  end.

(** The [switch] of the single-slot goroutine: the case [os.Interrupt] is
    empty (a Go [case] does not fall through), the case [SIGTERM] calls
    [bc.Cancel()], and there is no default. *)
Definition single_onSignal {payload Ext : Type} (sig : Signal)
    (bc : SingleSlot.BatchCollapse payload Ext)
    : M Ext (iface payload) (SingleSlot.BatchCollapse payload Ext) :=
  match sig with
  | Interrupt => ret bc
  | SIGTERM => SingleSlot.Cancel bc
  | SIGKILL | OtherSignal => ret bc
  end.

Definition single_process (payload Ext : Type) : Type :=
  (SingleSlot.system payload Ext * bool)%type.

Definition single_start {payload Ext : Type} (c : SingleSlot.Config payload Ext)
    (w : World Ext (iface payload)) : single_process payload Ext :=
  (SingleSlot.CreateBatchCollapse c w, true).

Definition single_signal {payload Ext : Type} (sig : Signal)
    (p : single_process payload Ext) : single_process payload Ext :=
  if snd p && single_notified sig
  then (single_onSignal sig (fst (fst p)) (snd (fst p)), false)
  else p.

Definition single_signals {payload Ext : Type} (sigs : list Signal)
    (p : single_process payload Ext) : single_process payload Ext :=
  fold_left (fun p sig => single_signal sig p) sigs p.

(** ** Further observations *)

(** A clock that does not run backwards. *)
Definition monotone {Ext call : Type} (w : World Ext call) : Prop :=
  forall i j : nat, (i <= j)%nat -> clock w i <= clock w j.

(** A payload as a list: nothing for nil. *)
Definition non_nil {payload : Type} (v : iface payload) : list (iface payload) :=
  match v with
  | Some x => [Some x]
  | None => []
  end.

(** What the single slot holds. *)
Definition slot {payload Ext : Type} (bc : SingleSlot.BatchCollapse payload Ext)
    : list (iface payload) :=
  non_nil (SingleSlot.Value bc).

(** The payloads that the [Collapse] calls among [ops] put into the slot:
    a call stores its payload exactly when the slot is empty. *)
Fixpoint single_accepted {payload Ext : Type} (ops : list (SingleSlot.op payload))
    (s : SingleSlot.system payload Ext) : list (iface payload) :=
  match ops with
  | [] => []
  | o :: ops' =>
      match o with
      | SingleSlot.OpCollapse value =>
          if SingleSlot.notNil (SingleSlot.Value (fst s)) then [] else non_nil value
      | _ => []
      end ++ single_accepted ops' (SingleSlot.step o s)
  end.

(** A clock for which 1000 is read three times, then 2000 ever after. *)
Definition soon_clock (i : nat) : Time := if (i <? 3)%nat then 1000 else 2000.

(** A clock that is past [lastExec + MaxDuration] of the test
    configurations from the third reading on. *)
Definition far_clock (i : nat) : Time := if (i <? 2)%nat then 1000 else 100000.

(** Test engines on a given clock, freshly created. *)
Definition keyed_created (clk : nat -> Time) : Keyed.system Z Z :=
  Keyed.CreateBatchCollapse (keyed_conf (Some test_callback))
    (mkWorld clk 0%nat 10 []).

Definition single_created (clk : nat -> Time) : SingleSlot.system Z Z :=
  SingleSlot.CreateBatchCollapse (single_conf (Some test_callback))
    (mkWorld clk 0%nat 10 []).

(** * Facts about the world *)

(** An operation that invokes nothing appends the empty list of calls. *)
Ltac no_calls := exists []; symmetry; apply app_nil_r.
Ltac nothing_new := exists []; split; [symmetry; apply app_nil_r|].

Section WorldFacts.
Context {Ext call : Type}.
Implicit Types w : World Ext call.

Lemma since_app w w' (l : list call) :
  calls w' = calls w ++ l -> since w w' = l.
Proof.
  intros E. unfold since. rewrite E. apply drop_app_length.
Qed.

Lemma since_refl w : since w w = [].
Proof. apply since_app. symmetry. apply app_nil_r. Qed.

Lemma since_same_calls w w' : calls w' = calls w -> since w w' = [].
Proof. intros E. apply since_app. rewrite E. symmetry. apply app_nil_r. Qed.

Lemma bind_run {A B : Type} (c : M Ext call A) (k : A -> M Ext call B) w :
  bind c k w = k (fst (c w)) (snd (c w)).
Proof. unfold bind. destruct (c w); reflexivity. Qed.

Lemma steady_clock now w w' :
  clock w' = clock w -> (reads w <= reads w')%nat -> steady now w -> steady now w'.
Proof. intros E Hr H i Hi. rewrite E. apply H. lia. Qed.
End WorldFacts.

(** After three readings [jump_clock] stands at 7000. *)
Lemma jump_clock_steady {Ext call : Type} (w : World Ext call) :
  clock w = jump_clock -> (3 <= reads w)%nat -> steady 7000 w.
Proof.
  intros E Hr i Hi. rewrite E. unfold jump_clock.
  destruct (Nat.ltb_spec i 3); [lia | reflexivity].
Qed.

(** * Invariants along a run *)

Section RunInvariant.
Context {S O : Type} (step : O -> S -> S).

Lemma run_invariant (allowed : O -> bool) (P : S -> Prop) :
  (forall o s, allowed o = true -> P s -> P (step o s)) ->
  forall ops s,
    forallb allowed ops = true -> P s ->
    P (fold_left (fun s o => step o s) ops s).
Proof.
  intros Hstep. induction ops as [|o ops IH]; intros s Hall Hs; simpl in *.
  - assumption.
  - apply andb_true_iff in Hall as [Ho Hall]. apply IH; auto.
Qed.

Lemma run_invariant_all (P : S -> Prop) :
  (forall o s, P s -> P (step o s)) ->
  forall ops s, P s -> P (fold_left (fun s o => step o s) ops s).
Proof.
  intros Hstep ops s Hs.
  apply (run_invariant (fun _ => true) P); auto.
  clear. induction ops; simpl; auto.
Qed.
End RunInvariant.

(** * Facts about the keyed engine *)

Section KeyedFacts.
Context {payload Ext : Type}.
Implicit Types bc : Keyed.BatchCollapse payload Ext.
Implicit Types w : World Ext (string * iface payload).
Implicit Types s : Keyed.system payload Ext.
Implicit Types key k K : string.
Implicit Types value v : iface payload.
Implicit Types order : list string.


Lemma keyed_KeyExists_false bc key :
  Keyed.KeyExists bc key = false <-> Keyed.Values bc !! key = None.
Proof.
  unfold Keyed.KeyExists. destruct (Keyed.Values bc !! key) as [x|].
  - split; discriminate.
  - split; reflexivity.
Qed.

(** The timing disjunction in terms of the two readings it may take. *)
Lemma keyed_timeCondition_value force bc w :
  fst (Keyed.timeCondition force bc w) =
    force
    || (Keyed.nextExec bc <? clock w (reads w))
    || (Keyed.lastExec bc + Keyed.MaxDuration (Keyed.conf bc) <? clock w (S (reads w))).
Proof.
  unfold Keyed.timeCondition, bind, ret, time_Now, Time_Before, Time_Add.
  destruct force; simpl; [reflexivity|].
  destruct (Keyed.nextExec bc <? clock w (reads w)); reflexivity.
Qed.

Lemma keyed_timeCondition_world force bc w :
  let w' := snd (Keyed.timeCondition force bc w) in
  clock w' = clock w /\ ext w' = ext w /\ calls w' = calls w /\
  (reads w <= reads w')%nat.
Proof.
  unfold Keyed.timeCondition, bind, ret, time_Now.
  destruct force; simpl; [auto|].
  destruct (Time_Before _ _); simpl; auto with lia.
Qed.

Lemma keyed_timeCondition_steady force bc w now :
  steady now w ->
  fst (Keyed.timeCondition force bc w) =
    spec_shouldFlush now (Keyed.lastExec bc) (Keyed.nextExec bc)
      (Keyed.MaxDuration (Keyed.conf bc)) force.
Proof.
  intros Hs. rewrite keyed_timeCondition_value, !Hs by lia. reflexivity.
Qed.

(** On a clock that does not run backwards the decision lies between the
    policy at the first reading and the policy at the second. *)
Lemma keyed_timeCondition_between force bc w :
  clock w (reads w) <= clock w (S (reads w)) ->
  (spec_shouldFlush (clock w (reads w)) (Keyed.lastExec bc) (Keyed.nextExec bc)
     (Keyed.MaxDuration (Keyed.conf bc)) force = true ->
   fst (Keyed.timeCondition force bc w) = true) /\
  (fst (Keyed.timeCondition force bc w) = true ->
   spec_shouldFlush (clock w (S (reads w))) (Keyed.lastExec bc) (Keyed.nextExec bc)
     (Keyed.MaxDuration (Keyed.conf bc)) force = true).
Proof.
  intros Hle. rewrite keyed_timeCondition_value. unfold spec_shouldFlush.
  rewrite !orb_true_iff, !Z.ltb_lt. split; intros [[H | H] | H]; auto; lia.
Qed.

(** What one run of the loop body does: nothing to the engine, or a
    flush.  [wc] is the world after the readings of the condition. *)
Lemma keyed_entry_cases force key value bc w :
  let s' := Keyed.doProcess_entry force key value bc w in
  let wc := snd (Keyed.timeCondition force bc w) in
  (fst s' = bc /\ calls (snd s') = calls w /\ ext (snd s') = ext w /\
   clock (snd s') = clock w /\
   (Keyed.KeyExists bc key = false \/ Keyed.ExecuteFunc (Keyed.conf bc) = None \/
    fst (Keyed.timeCondition force bc w) = false))
  \/
  (exists f,
     Keyed.KeyExists bc key = true /\
     Keyed.ExecuteFunc (Keyed.conf bc) = Some f /\
     fst (Keyed.timeCondition force bc w) = true /\
     fst s' = keyed_flushed key (clock w (reads wc)) (clock w (S (reads wc))) bc /\
     calls (snd s') = calls w ++ [(key, value)] /\
     ext (snd s') = f value (ext w) /\
     clock (snd s') = clock w).
Proof.
  intros s' wc.
  assert (E : s' = Keyed.doProcess_entry force key value bc w) by reflexivity.
  clearbody s'. subst wc. unfold Keyed.doProcess_entry in E.
  destruct (Keyed.KeyExists bc key) eqn:Hk; [|subst s'; left; simpl; auto 10].
  destruct (Keyed.ExecuteFunc (Keyed.conf bc)) as [f|] eqn:Hf;
    [|subst s'; left; simpl; auto 10].
  pose proof (keyed_timeCondition_world force bc w) as (Hc & He & Hl & _).
  unfold bind at 1 in E.
  destruct (Keyed.timeCondition force bc w) as [go wc] eqn:Ht. simpl in *.
  destruct go; subst s'.
  - right. exists f. unfold bind, invoke, time_Now, ret; simpl.
    rewrite Hc, He, Hl. unfold keyed_flushed. auto 10.
  - left. unfold ret; simpl. auto 10.
Qed.

Lemma keyed_entry_reads force key value bc w :
  (reads w <= reads (snd (Keyed.doProcess_entry force key value bc w)))%nat.
Proof.
  unfold Keyed.doProcess_entry.
  destruct (Keyed.KeyExists bc key); [|simpl; lia].
  destruct (Keyed.ExecuteFunc (Keyed.conf bc)); [|simpl; lia].
  rewrite bind_run.
  pose proof (keyed_timeCondition_world force bc w) as (_ & _ & _ & Hr).
  destruct (fst (Keyed.timeCondition force bc w));
    unfold bind, invoke, time_Now, ret; simpl; lia.
Qed.

Lemma keyed_range_cons force key rest bc w :
  Keyed.range_Values force (key :: rest) bc w =
    match Keyed.Values bc !! key with
    | Some value =>
        Keyed.range_Values force rest
          (fst (Keyed.doProcess_entry force key value bc w))
          (snd (Keyed.doProcess_entry force key value bc w))
    | None => Keyed.range_Values force rest bc w
    end.
Proof.
  simpl. destruct (Keyed.Values bc !! key); [apply bind_run | reflexivity].
Qed.

(** A pass leaves the configuration, the flags and the clock alone. *)
Lemma keyed_range_frame force order bc w :
  let s' := Keyed.range_Values force order bc w in
  Keyed.conf (fst s') = Keyed.conf bc /\
  Keyed.IsCanceled (fst s') = Keyed.IsCanceled bc /\
  Keyed.ctxDone (fst s') = Keyed.ctxDone bc /\
  clock (snd s') = clock w.
Proof.
  revert bc w. induction order as [|key rest IH]; intros bc w; [simpl; auto|].
  cbv zeta. rewrite keyed_range_cons.
  destruct (Keyed.Values bc !! key) as [value|]; [|apply IH].
  destruct (keyed_entry_cases force key value bc w)
    as [(E & _ & _ & Hc & _) | (f & _ & _ & _ & E & _ & _ & Hc)];
    specialize (IH (fst (Keyed.doProcess_entry force key value bc w))
                   (snd (Keyed.doProcess_entry force key value bc w)));
    cbv zeta in IH; destruct IH as (I1 & I2 & I3 & I4);
    rewrite I1, I2, I3, I4, E, Hc; auto.
Qed.

Lemma keyed_range_reads force order bc w :
  (reads w <= reads (snd (Keyed.range_Values force order bc w)))%nat.
Proof.
  revert bc w. induction order as [|key rest IH]; intros bc w; [simpl; lia|].
  rewrite keyed_range_cons.
  destruct (Keyed.Values bc !! key) as [value|]; [|apply IH].
  pose proof (keyed_entry_reads force key value bc w).
  pose proof (IH (fst (Keyed.doProcess_entry force key value bc w))
                 (snd (Keyed.doProcess_entry force key value bc w))).
  lia.
Qed.

(** The pass in full: what it delivers and what it leaves in the map.
    Each delivered pair was in the map when the pass began, no key is
    delivered twice, and exactly the delivered keys are gone. *)
Lemma keyed_range_spec force order bc w :
  let s' := Keyed.range_Values force order bc w in
  exists l : list (string * iface payload),
    calls (snd s') = calls w ++ l /\
    NoDup (fst <$> l) /\
    (forall k v, (k, v) ∈ l -> k ∈ order /\ Keyed.Values bc !! k = Some v) /\
    (forall k, Keyed.Values (fst s') !! k =
               if bool_decide (k ∈ fst <$> l) then None else Keyed.Values bc !! k).
Proof.
  revert bc w. induction order as [|key rest IH]; intros bc w; cbv zeta.
  - exists []. simpl. rewrite app_nil_r.
    split; [reflexivity|]. split; [constructor|].
    split; [intros k v H; inversion H | reflexivity].
  - rewrite keyed_range_cons.
    destruct (Keyed.Values bc !! key) as [value|] eqn:Hv.
    + destruct (keyed_entry_cases force key value bc w)
        as [(E & Hl & _) | (f & _ & _ & _ & E & Hl & _)];
        specialize (IH (fst (Keyed.doProcess_entry force key value bc w))
                       (snd (Keyed.doProcess_entry force key value bc w)));
        cbv zeta in IH; destruct IH as (l & I1 & I2 & I3 & I4).
      * exists l. rewrite I1, Hl. rewrite E in I3, I4. rewrite E.
        split; [reflexivity|]. split; [assumption|]. split; [|assumption].
        intros k v H. apply (I3 k v) in H as [H1 H2].
        split; [right; assumption | assumption].
      * rewrite E in I3, I4. unfold keyed_flushed in I3, I4. simpl in I3, I4.
        assert (Hfresh : key ∉ fst <$> l).
        { intros Hin. apply list_elem_of_fmap in Hin as [[k v] [-> Hin]].
          apply I3 in Hin as [_ Hin]. simpl in Hin.
          rewrite lookup_delete_eq in Hin. discriminate. }
        exists ((key, value) :: l). rewrite I1, Hl, <- app_assoc, E, fmap_cons.
        cbn [fst].
        split; [reflexivity|]. split; [constructor; assumption|]. split.
        -- intros k v H. apply elem_of_cons in H as [H | H].
           ++ inversion H; subst. split; [left | assumption].
           ++ apply (I3 k v) in H as [H1 H2]. split; [right; assumption|].
              destruct (decide (k = key)) as [->|Hne].
              ** rewrite lookup_delete_eq in H2. discriminate.
              ** rewrite lookup_delete_ne in H2 by auto. assumption.
        -- intros k. rewrite I4.
           destruct (decide (k = key)) as [->|Hne].
           ++ rewrite lookup_delete_eq.
              rewrite (bool_decide_eq_true_2 (key ∈ key :: (fst <$> l))) by left.
              destruct (bool_decide _); reflexivity.
           ++ rewrite lookup_delete_ne by auto.
              rewrite (bool_decide_ext (k ∈ key :: (fst <$> l)) (k ∈ fst <$> l));
                [reflexivity|].
              rewrite elem_of_cons. tauto.
    + destruct (IH bc w) as (l & I1 & I2 & I3 & I4).
      exists l. split; [assumption|]. split; [assumption|]. split; [|assumption].
      intros k v H. apply (I3 k v) in H as [H1 H2].
      split; [right; assumption | assumption].
Qed.

(** ** The three operations *)

Lemma keyed_Collapse_run key value bc w :
  Keyed.Collapse key value bc w =
    (Keyed.set_nextExec
       (clock w (reads w) + Keyed.RetentionDuration (Keyed.conf bc))
       (if Keyed.KeyExists bc key then bc
        else Keyed.set_Values (<[key := value]> (Keyed.Values bc)) bc),
     mkWorld (clock w) (S (reads w)) (ext w) (calls w)).
Proof.
  unfold Keyed.Collapse, bind, ret, time_Now, Time_Add.
  destruct (Keyed.KeyExists bc key); reflexivity.
Qed.

Lemma keyed_step_Turn order s :
  Keyed.step (Keyed.OpTurn order) s =
    if Keyed.ctxDone (fst s) then s
    else Keyed.range_Values false order (fst s) (snd s).
Proof.
  destruct s as [bc w]. unfold Keyed.step, Keyed.executeIfCompleted_turn. simpl.
  destruct (Keyed.ctxDone bc); [reflexivity|].
  unfold Keyed.doProcess. rewrite bind_run. unfold ret. simpl.
  destruct (Keyed.range_Values false order bc w); reflexivity.
Qed.

Lemma keyed_Cancel_run order bc w :
  Keyed.Cancel order bc w =
    (Keyed.set_IsCanceled true
       (fst (Keyed.range_Values true order (Keyed.set_ctxDone true bc) w)),
     snd (Keyed.range_Values true order (Keyed.set_ctxDone true bc) w)).
Proof.
  unfold Keyed.Cancel, Keyed.doProcess. rewrite !bind_run. reflexivity.
Qed.

Lemma keyed_step_Collapse key value s :
  Keyed.step (Keyed.OpCollapse key value) s = Keyed.Collapse key value (fst s) (snd s).
Proof. reflexivity. Qed.

Lemma keyed_step_Cancel order s :
  Keyed.step (Keyed.OpCancel order) s = Keyed.Cancel order (fst s) (snd s).
Proof. reflexivity. Qed.

Lemma keyed_run_cons o ops s : Keyed.run (o :: ops) s = Keyed.run ops (Keyed.step o s).
Proof. reflexivity. Qed.

Lemma keyed_run_app ops1 ops2 s :
  Keyed.run (ops1 ++ ops2) s = Keyed.run ops2 (Keyed.run ops1 s).
Proof. unfold Keyed.run. apply fold_left_app. Qed.

(** Every operation only appends to the trace, and leaves the
    configuration and the clock alone. *)
Lemma keyed_step_frame o s :
  Keyed.conf (fst (Keyed.step o s)) = Keyed.conf (fst s) /\
  clock (snd (Keyed.step o s)) = clock (snd s) /\
  exists l, calls (snd (Keyed.step o s)) = calls (snd s) ++ l.
Proof.
  destruct s as [bc w]. destruct o as [key value|order|order].
  - rewrite keyed_step_Collapse, keyed_Collapse_run. simpl.
    split; [destruct (Keyed.KeyExists bc key); reflexivity|].
    split; [reflexivity|]. no_calls.
  - rewrite keyed_step_Turn. simpl fst; simpl snd.
    destruct (Keyed.ctxDone bc).
    + simpl. split; [reflexivity|]. split; [reflexivity|].
      no_calls.
    + destruct (keyed_range_frame false order bc w) as (H1 & _ & _ & H4).
      destruct (keyed_range_spec false order bc w) as (l & Hl & _).
      eauto.
  - rewrite keyed_step_Cancel, keyed_Cancel_run. simpl.
    destruct (keyed_range_frame true order (Keyed.set_ctxDone true bc) w)
      as (H1 & _ & _ & H4).
    destruct (keyed_range_spec true order (Keyed.set_ctxDone true bc) w)
      as (l & Hl & _).
    eauto.
Qed.

Lemma keyed_run_frame ops s :
  Keyed.conf (fst (Keyed.run ops s)) = Keyed.conf (fst s) /\
  clock (snd (Keyed.run ops s)) = clock (snd s) /\
  exists l, calls (snd (Keyed.run ops s)) = calls (snd s) ++ l.
Proof.
  revert s. induction ops as [|o ops IH]; intros s.
  - simpl. split; [reflexivity|]. split; [reflexivity|].
    no_calls.
  - rewrite keyed_run_cons.
    destruct (IH (Keyed.step o s)) as (H1 & H2 & l2 & H3).
    destruct (keyed_step_frame o s) as (G1 & G2 & l1 & G3).
    rewrite H1, H2, H3, G3. split; [assumption|]. split; [assumption|].
    exists (l1 ++ l2). symmetry. apply app_assoc.
Qed.

(** ** Passes that cannot flush *)

Lemma keyed_entry_nil force key value bc w :
  Keyed.ExecuteFunc (Keyed.conf bc) = None ->
  Keyed.doProcess_entry force key value bc w = (bc, w).
Proof.
  intros Hf. unfold Keyed.doProcess_entry. rewrite Hf.
  destruct (Keyed.KeyExists bc key); reflexivity.
Qed.

Lemma keyed_range_nil force order bc w :
  Keyed.ExecuteFunc (Keyed.conf bc) = None ->
  Keyed.range_Values force order bc w = (bc, w).
Proof.
  intros Hf. induction order as [|key rest IH]; [reflexivity|].
  rewrite keyed_range_cons.
  destruct (Keyed.Values bc !! key) as [value|]; [|assumption].
  rewrite keyed_entry_nil by assumption. assumption.
Qed.

Lemma keyed_range_empty force order bc w :
  Keyed.Values bc = ∅ ->
  Keyed.range_Values force order bc w = (bc, w).
Proof.
  intros He. induction order as [|key rest IH]; [reflexivity|].
  rewrite keyed_range_cons, He, lookup_empty. assumption.
Qed.

(** ** The cancelled flag *)

Lemma keyed_Cancel_IsCanceled order bc w :
  Keyed.IsCanceled (fst (Keyed.Cancel order bc w)) = true.
Proof. rewrite keyed_Cancel_run. reflexivity. Qed.

Lemma keyed_step_IsCanceled o s :
  keyed_not_cancel o = true ->
  Keyed.IsCanceled (fst (Keyed.step o s)) = Keyed.IsCanceled (fst s).
Proof.
  destruct s as [bc w]. destruct o as [key value|order|order]; intros Ho.
  - rewrite keyed_step_Collapse, keyed_Collapse_run. simpl.
    destruct (Keyed.KeyExists bc key); reflexivity.
  - rewrite keyed_step_Turn. simpl fst; simpl snd.
    destruct (Keyed.ctxDone bc); [reflexivity|].
    apply keyed_range_frame.
  - discriminate.
Qed.

Lemma keyed_step_IsCanceled_stays o s :
  Keyed.IsCanceled (fst s) = true ->
  Keyed.IsCanceled (fst (Keyed.step o s)) = true.
Proof.
  intros Hs. destruct o as [key value|order|order].
  - rewrite keyed_step_IsCanceled; auto.
  - rewrite keyed_step_IsCanceled; auto.
  - rewrite keyed_step_Cancel. apply keyed_Cancel_IsCanceled.
Qed.

(** ** A nil callback *)

Lemma keyed_step_nil o s :
  Keyed.ExecuteFunc (Keyed.conf (fst s)) = None ->
  calls (snd (Keyed.step o s)) = calls (snd s) /\
  ext (snd (Keyed.step o s)) = ext (snd s) /\
  forall k v, Keyed.Values (fst s) !! k = Some v ->
              Keyed.Values (fst (Keyed.step o s)) !! k = Some v.
Proof.
  destruct s as [bc w]. simpl fst; simpl snd. intros Hf.
  destruct o as [key value|order|order].
  - rewrite keyed_step_Collapse, keyed_Collapse_run. simpl.
    split; [reflexivity|]. split; [reflexivity|].
    intros k v Hk. destruct (Keyed.KeyExists bc key) eqn:He; [assumption|].
    apply keyed_KeyExists_false in He. simpl.
    rewrite lookup_insert_ne; [assumption|]. congruence.
  - rewrite keyed_step_Turn. simpl fst; simpl snd.
    destruct (Keyed.ctxDone bc); [auto|].
    rewrite keyed_range_nil by assumption. auto.
  - rewrite keyed_step_Cancel, keyed_Cancel_run. simpl fst; simpl snd.
    rewrite keyed_range_nil by assumption. auto.
Qed.

Lemma keyed_run_nil ops s :
  Keyed.ExecuteFunc (Keyed.conf (fst s)) = None ->
  calls (snd (Keyed.run ops s)) = calls (snd s) /\
  ext (snd (Keyed.run ops s)) = ext (snd s) /\
  forall k v, Keyed.Values (fst s) !! k = Some v ->
              Keyed.Values (fst (Keyed.run ops s)) !! k = Some v.
Proof.
  revert s. induction ops as [|o ops IH]; intros s Hf; [simpl; auto|].
  rewrite keyed_run_cons.
  destruct (keyed_step_nil o s Hf) as (G1 & G2 & G3).
  destruct (IH (Keyed.step o s)) as (H1 & H2 & H3).
  { destruct (keyed_step_frame o s) as [-> _]. assumption. }
  rewrite H1, H2. auto.
Qed.

(** ** Passes, piece by piece *)

Lemma keyed_range_app force order1 order2 bc w :
  Keyed.range_Values force (order1 ++ order2) bc w =
    Keyed.range_Values force order2
      (fst (Keyed.range_Values force order1 bc w))
      (snd (Keyed.range_Values force order1 bc w)).
Proof.
  revert bc w. induction order1 as [|key rest IH]; intros bc w; [reflexivity|].
  rewrite <- app_comm_cons, !keyed_range_cons.
  destruct (Keyed.Values bc !! key); apply IH.
Qed.

(** A pass does not touch a key that is not in its order. *)
Lemma keyed_range_other force order bc w k :
  k ∉ order ->
  let s' := Keyed.range_Values force order bc w in
  Keyed.Values (fst s') !! k = Keyed.Values bc !! k /\
  forall v, (k, v) ∉ since w (snd s').
Proof.
  intros Hk. cbv zeta.
  destruct (keyed_range_spec force order bc w) as (l & Hl & _ & Hin & Hlook).
  rewrite (since_app _ _ _ Hl). split.
  - rewrite Hlook. rewrite bool_decide_eq_false_2; [reflexivity|].
    intros H. apply list_elem_of_fmap in H as [[k' v] [-> H]].
    apply Hin in H as [H _]. contradiction.
  - intros v H. apply Hin in H as [H _]. contradiction.
Qed.

(** The watermarks after a pass: untouched when nothing was delivered,
    read from the clock when something was. *)
Lemma keyed_range_watermarks force order bc w now :
  steady now w ->
  let s' := Keyed.range_Values force order bc w in
  (since w (snd s') = [] /\ fst s' = bc) \/
  (since w (snd s') <> [] /\
   Keyed.lastExec (fst s') = now /\
   Keyed.nextExec (fst s') =
     Time_Add now (Keyed.RetentionDuration (Keyed.conf bc))).
Proof.
  revert bc w. induction order as [|key rest IH]; intros bc w Hs; cbv zeta.
  - left. split; [apply since_refl | reflexivity].
  - rewrite keyed_range_cons.
    destruct (Keyed.Values bc !! key) as [value|]; [|apply IH; assumption].
    destruct (keyed_entry_cases force key value bc w)
      as [(E & Hl & _ & Hc & _) | (f & _ & _ & _ & E & Hl & _ & Hc)].
    + rewrite E. unfold since. rewrite <- Hl.
      apply (IH bc). apply (steady_clock now w); [assumption | | assumption].
      apply keyed_entry_reads.
    + pose proof (keyed_timeCondition_world force bc w) as (_ & _ & _ & Hr).
      pose proof (keyed_entry_reads force key value bc w) as Hr1.
      set (s1 := Keyed.doProcess_entry force key value bc w) in *.
      assert (Hs1 : steady now (snd s1)) by (apply (steady_clock now w); assumption).
      destruct (keyed_range_spec force rest (fst s1) (snd s1)) as (l & Hl' & _).
      assert (Hne : since w (snd (Keyed.range_Values force rest (fst s1) (snd s1)))
                    <> []).
      { rewrite (since_app w _ ((key, value) :: l)); [discriminate|].
        rewrite Hl', Hl, <- app_assoc. reflexivity. }
      right. split; [assumption|].
      destruct (IH (fst s1) (snd s1) Hs1) as [(_ & E') | (_ & H1 & H2)].
      * rewrite E', E. unfold keyed_flushed. simpl. rewrite !Hs by lia. auto.
      * rewrite H1, H2, E. unfold keyed_flushed. simpl. auto.
Qed.

(** ** The flush decision under a clock that stands still *)

Lemma keyed_entry_decision force key value bc w f now :
  Keyed.Values bc !! key = Some value ->
  Keyed.ExecuteFunc (Keyed.conf bc) = Some f ->
  steady now w ->
  let e := Keyed.doProcess_entry force key value bc w in
  if spec_shouldFlush now (Keyed.lastExec bc) (Keyed.nextExec bc)
       (Keyed.MaxDuration (Keyed.conf bc)) force
  then calls (snd e) = calls w ++ [(key, value)] /\
       fst e = keyed_flushed key now now bc /\
       ext (snd e) = f value (ext w)
  else calls (snd e) = calls w /\ fst e = bc /\ ext (snd e) = ext w.
Proof.
  intros Hv Hf Hs. cbv zeta.
  rewrite <- (keyed_timeCondition_steady force bc w now Hs).
  pose proof (keyed_timeCondition_world force bc w) as (_ & _ & _ & Hr).
  destruct (keyed_entry_cases force key value bc w)
    as [(E & Hl & He & _ & [Hk | [Hn | Ht]])
       | (f' & _ & Hf' & Ht & E & Hl & He & _)].
  - apply keyed_KeyExists_false in Hk. congruence.
  - congruence.
  - rewrite Ht. auto.
  - rewrite Ht, E, !Hs by lia. rewrite Hf in Hf'. injection Hf' as <-. auto.
Qed.

Lemma keyed_pass_decision force pre key post value bc w f now :
  NoDup (pre ++ key :: post) ->
  Keyed.Values bc !! key = Some value ->
  Keyed.ExecuteFunc (Keyed.conf bc) = Some f ->
  steady now w ->
  let mid := Keyed.range_Values force pre bc w in
  let s' := Keyed.doProcess force (pre ++ key :: post) bc w in
  let go := spec_shouldFlush now (Keyed.lastExec (fst mid)) (Keyed.nextExec (fst mid))
              (Keyed.MaxDuration (Keyed.conf bc)) force in
  ((key, value) ∈ since w (snd s') <-> go = true) /\
  (Keyed.Values (fst s') !! key = None <-> go = true).
Proof.
  intros Hnd Hv Hf Hs. cbv zeta.
  apply NoDup_app in Hnd as (_ & Hpre & Hpost).
  assert (Hk1 : key ∉ pre) by (intros H; apply (Hpre key H); left).
  assert (Hk2 : key ∉ post) by (apply NoDup_cons in Hpost as [H _]; exact H).
  unfold Keyed.doProcess. rewrite keyed_range_app.
  set (mid := Keyed.range_Values force pre bc w).
  destruct (keyed_range_other force pre bc w key Hk1) as [Hm _].
  fold mid in Hm. rewrite Hv in Hm.
  destruct (keyed_range_frame force pre bc w) as (Hc & _ & _ & Hclk).
  fold mid in Hc, Hclk.
  destruct (keyed_range_spec force pre bc w) as (l1 & Hl1 & _ & Hin1 & _).
  fold mid in Hl1.
  rewrite keyed_range_cons, Hm.
  set (e := Keyed.doProcess_entry force key value (fst mid) (snd mid)).
  destruct (keyed_range_other force post (fst e) (snd e) key Hk2) as [Hlook _].
  destruct (keyed_range_spec force post (fst e) (snd e)) as (l3 & Hl3 & _ & Hin3 & _).
  rewrite Hlook.
  assert (Hs' : steady now (snd mid)).
  { apply (steady_clock now w); [assumption | | assumption].
    apply keyed_range_reads. }
  assert (Hf' : Keyed.ExecuteFunc (Keyed.conf (fst mid)) = Some f) by (rewrite Hc; exact Hf).
  pose proof (keyed_entry_decision force key value (fst mid) (snd mid) f now Hm Hf' Hs')
    as Hd.
  cbv zeta in Hd. fold e in Hd. rewrite Hc in Hd.
  destruct (spec_shouldFlush now (Keyed.lastExec (fst mid)) (Keyed.nextExec (fst mid))
              (Keyed.MaxDuration (Keyed.conf bc)) force).
  - destruct Hd as (Hle & He & _).
    rewrite (since_app w _ (l1 ++ [(key, value)] ++ l3)).
    2:{ rewrite Hl3, Hle, Hl1, <- !app_assoc. reflexivity. }
    split; split; auto.
    + intros _. rewrite !elem_of_app. right. left. left.
    + intros _. rewrite He. unfold keyed_flushed. simpl. apply lookup_delete_eq.
  - destruct Hd as (Hle & He & _).
    rewrite (since_app w _ (l1 ++ l3)).
    2:{ rewrite Hl3, Hle, Hl1, <- !app_assoc. reflexivity. }
    split; split; try discriminate.
    + intros H. apply elem_of_app in H as [H | H].
      * apply Hin1 in H as [H _]. contradiction.
      * apply Hin3 in H as [H _]. contradiction.
    + rewrite He, Hm. discriminate.
Qed.

(** ** Forced passes *)

Lemma keyed_order_of_elem bc order k :
  Keyed.order_of bc order -> is_Some (Keyed.Values bc !! k) -> k ∈ order.
Proof.
  intros [_ Hord] Hk. apply elem_of_dom in Hk. rewrite <- Hord in Hk.
  apply elem_of_list_to_set in Hk. exact Hk.
Qed.

Lemma keyed_timeCondition_forced bc w :
  Keyed.timeCondition true bc w = (true, w).
Proof. reflexivity. Qed.

Lemma keyed_range_absent force order bc w k :
  Keyed.Values bc !! k = None ->
  Keyed.Values (fst (Keyed.range_Values force order bc w)) !! k = None.
Proof.
  intros Hk.
  destruct (keyed_range_spec force order bc w) as (l & _ & _ & _ & Hlook).
  rewrite Hlook, Hk. destruct (bool_decide _); reflexivity.
Qed.

(** With a callback, a forced pass removes every key of its order. *)
Lemma keyed_range_forced_gone order bc w f k :
  Keyed.ExecuteFunc (Keyed.conf bc) = Some f ->
  k ∈ order ->
  Keyed.Values (fst (Keyed.range_Values true order bc w)) !! k = None.
Proof.
  revert bc w. induction order as [|key rest IH]; intros bc w Hf Hin.
  - inversion Hin.
  - rewrite keyed_range_cons.
    destruct (Keyed.Values bc !! key) as [value|] eqn:Hv.
    + destruct (keyed_entry_cases true key value bc w)
        as [(_ & _ & _ & _ & [Hk | [Hn | Ht]]) | (f' & _ & _ & _ & E & _)].
      * apply keyed_KeyExists_false in Hk. congruence.
      * congruence.
      * rewrite keyed_timeCondition_forced in Ht. discriminate.
      * destruct (decide (k = key)) as [->|Hne].
        -- apply keyed_range_absent. rewrite E. unfold keyed_flushed. simpl.
           apply lookup_delete_eq.
        -- apply elem_of_cons in Hin as [Hin | Hin]; [contradiction|].
           apply (IH _ _); [|assumption].
           rewrite E. unfold keyed_flushed. simpl. assumption.
    + destruct (decide (k = key)) as [->|Hne].
      * apply keyed_range_absent. assumption.
      * apply elem_of_cons in Hin as [Hin | Hin]; [contradiction|].
        apply IH; assumption.
Qed.

(** What is gone after a pass was delivered by it. *)
Lemma keyed_range_gone_delivered force order bc w k v :
  Keyed.Values bc !! k = Some v ->
  Keyed.Values (fst (Keyed.range_Values force order bc w)) !! k = None ->
  (k, v) ∈ since w (snd (Keyed.range_Values force order bc w)).
Proof.
  intros Hv Hgone.
  destruct (keyed_range_spec force order bc w) as (l & Hl & _ & Hin & Hlook).
  rewrite (since_app _ _ _ Hl).
  rewrite Hlook in Hgone.
  destruct (bool_decide (k ∈ fst <$> l)) eqn:Hb; [|congruence].
  apply bool_decide_eq_true_1 in Hb.
  apply list_elem_of_fmap in Hb as [[k' v'] [-> Hb]]. simpl in *.
  destruct (Hin _ _ Hb) as [_ Hv']. rewrite Hv in Hv'. injection Hv' as <-.
  assumption.
Qed.

Lemma keyed_Cancel_drains order bc w f k v :
  Keyed.Values bc !! k = Some v ->
  Keyed.ExecuteFunc (Keyed.conf bc) = Some f ->
  Keyed.order_of bc order ->
  let s' := Keyed.Cancel order bc w in
  (k, v) ∈ since w (snd s') /\
  Keyed.Values (fst s') !! k = None /\
  Keyed.IsCanceled (fst s') = true.
Proof.
  intros Hv Hf Hord. cbv zeta. rewrite keyed_Cancel_run. simpl.
  assert (Hin : k ∈ order) by (apply (keyed_order_of_elem bc); eauto).
  assert (Hgone : Keyed.Values
                    (fst (Keyed.range_Values true order (Keyed.set_ctxDone true bc) w))
                    !! k = None)
    by (apply (keyed_range_forced_gone order (Keyed.set_ctxDone true bc) w f); assumption).
  split; [|split; [assumption | reflexivity]].
  apply keyed_range_gone_delivered; assumption.
Qed.

(** ** The first delivery for a key *)

Lemma delivered_for_app K (l1 l2 : list (string * iface payload)) :
  delivered_for K (l1 ++ l2) = delivered_for K l1 ++ delivered_for K l2.
Proof. unfold delivered_for. rewrite filter_app, fmap_app. reflexivity. Qed.

Lemma elem_of_delivered_for K v (l : list (string * iface payload)) :
  v ∈ delivered_for K l <-> (K, v) ∈ l.
Proof.
  unfold delivered_for. rewrite list_elem_of_fmap. split.
  - intros [[k' v'] [-> H]]. apply list_elem_of_filter in H as [H1 H2].
    simpl in *. subst k'. assumption.
  - intros H. exists (K, v). split; [reflexivity|].
    apply list_elem_of_filter. split; [reflexivity | assumption].
Qed.

Lemma keyed_range_first_delivery force order bc w K v1 :
  Keyed.Values bc !! K = Some v1 ->
  let s' := Keyed.range_Values force order bc w in
  exists l, calls (snd s') = calls w ++ l /\
    match delivered_for K l with
    | [] => Keyed.Values (fst s') !! K = Some v1
    | v :: _ => v = v1
    end.
Proof.
  intros Hv. cbv zeta.
  destruct (keyed_range_spec force order bc w) as (l & Hl & _ & Hin & Hlook).
  exists l. split; [assumption|].
  destruct (delivered_for K l) as [|v rest] eqn:Hd.
  - rewrite Hlook, bool_decide_eq_false_2; [assumption|].
    intros H. apply list_elem_of_fmap in H as [[k' v'] [-> H]]. simpl in *.
    apply elem_of_delivered_for in H. rewrite Hd in H. inversion H.
  - assert (H : v ∈ delivered_for K l) by (rewrite Hd; left).
    apply elem_of_delivered_for in H. apply Hin in H as [_ H]. congruence.
Qed.

Lemma keyed_step_first_delivery o s K v1 :
  Keyed.Values (fst s) !! K = Some v1 ->
  exists l, calls (snd (Keyed.step o s)) = calls (snd s) ++ l /\
    match delivered_for K l with
    | [] => Keyed.Values (fst (Keyed.step o s)) !! K = Some v1
    | v :: _ => v = v1
    end.
Proof.
  destruct s as [bc w]. simpl fst; simpl snd. intros Hv.
  destruct o as [key value|order|order].
  - rewrite keyed_step_Collapse, keyed_Collapse_run. simpl.
    nothing_new. simpl.
    destruct (Keyed.KeyExists bc key) eqn:He; [assumption|].
    apply keyed_KeyExists_false in He. simpl.
    rewrite lookup_insert_ne; [assumption | congruence].
  - rewrite keyed_step_Turn. simpl fst; simpl snd.
    destruct (Keyed.ctxDone bc).
    + nothing_new; assumption.
    + apply keyed_range_first_delivery. assumption.
  - rewrite keyed_step_Cancel, keyed_Cancel_run. simpl fst; simpl snd.
    apply (keyed_range_first_delivery true order (Keyed.set_ctxDone true bc) w K v1).
    assumption.
Qed.

Lemma keyed_run_first_delivery ops s K v1 :
  Keyed.Values (fst s) !! K = Some v1 ->
  match delivered_for K (since (snd s) (snd (Keyed.run ops s))) with
  | [] => Keyed.Values (fst (Keyed.run ops s)) !! K = Some v1
  | v :: _ => v = v1
  end.
Proof.
  revert s. induction ops as [|o ops IH]; intros s Hv.
  - simpl. rewrite since_refl. assumption.
  - rewrite keyed_run_cons.
    destruct (keyed_step_first_delivery o s K v1 Hv) as (l1 & Hl1 & H1).
    destruct (keyed_run_frame ops (Keyed.step o s)) as (_ & _ & l2 & Hl2).
    rewrite (since_app (snd s) _ (l1 ++ l2)).
    2:{ rewrite Hl2, Hl1, app_assoc. reflexivity. }
    rewrite delivered_for_app.
    destruct (delivered_for K l1) as [|v rest]; [|assumption].
    specialize (IH (Keyed.step o s) H1).
    rewrite (since_app _ _ _ Hl2) in IH. assumption.
Qed.

Lemma keyed_collapse_twice K v1 v2 s :
  Keyed.Values (fst s) !! K = None ->
  Keyed.Values
    (fst (Keyed.run [Keyed.OpCollapse K v1; Keyed.OpCollapse K v2] s)) !! K = Some v1.
Proof.
  destruct s as [bc w]. intros Hv. simpl in Hv.
  rewrite !keyed_run_cons, !keyed_step_Collapse, !keyed_Collapse_run. simpl.
  assert (H1 : Keyed.KeyExists bc K = false) by (apply keyed_KeyExists_false; assumption).
  rewrite H1. simpl.
  unfold Keyed.KeyExists at 1. simpl. rewrite lookup_insert_eq. simpl.
  apply lookup_insert_eq.
Qed.

(** ** Conservation of collapsed values

    What a pass delivers and what it leaves pending is, together, what
    was pending before it. *)

Lemma keyed_range_conservation force order bc w :
  let s' := Keyed.range_Values force order bc w in
  since w (snd s') ++ map_to_list (Keyed.Values (fst s'))
  ≡ₚ map_to_list (Keyed.Values bc).
Proof.
  cbv zeta.
  destruct (keyed_range_spec force order bc w) as (l & Hl & Hnd & Hin & Hlook).
  rewrite (since_app _ _ _ Hl).
  set (m' := Keyed.Values (fst (Keyed.range_Values force order bc w))) in *.
  assert (Hgone : forall k v, (k, v) ∈ l -> m' !! k = None).
  { intros k v H. rewrite Hlook, bool_decide_eq_true_2; [reflexivity|].
    apply list_elem_of_fmap. exists (k, v). auto. }
  apply NoDup_Permutation.
  - apply NoDup_app. split; [|split].
    + apply (NoDup_fmap_1 fst). assumption.
    + intros [k v] H1 H2. apply elem_of_map_to_list in H2.
      rewrite (Hgone k v H1) in H2. discriminate.
    + apply NoDup_map_to_list.
  - apply NoDup_map_to_list.
  - intros [k v]. rewrite elem_of_app, !elem_of_map_to_list. split.
    + intros [H | H]; [apply (Hin k v H)|].
      rewrite Hlook in H. destruct (bool_decide _); [discriminate | assumption].
    + intros H. rewrite Hlook.
      destruct (bool_decide (k ∈ fst <$> l)) eqn:Hb; [left | right; assumption].
      apply bool_decide_eq_true_1 in Hb.
      apply list_elem_of_fmap in Hb as [[k' v'] [-> Hb]]. simpl in *.
      destruct (Hin _ _ Hb) as [_ Hv']. rewrite H in Hv'. injection Hv' as <-.
      assumption.
Qed.

Lemma accepted_cons o ops s :
  accepted (o :: ops) s = accepted [o] s ++ accepted ops (Keyed.step o s).
Proof. simpl. rewrite app_nil_r. reflexivity. Qed.

Lemma keyed_step_conservation o s :
  since (snd s) (snd (Keyed.step o s))
    ++ map_to_list (Keyed.Values (fst (Keyed.step o s)))
  ≡ₚ map_to_list (Keyed.Values (fst s)) ++ accepted [o] s.
Proof.
  destruct s as [bc w]. destruct o as [key value|order|order].
  - rewrite keyed_step_Collapse, keyed_Collapse_run. simpl.
    rewrite since_same_calls by reflexivity. simpl.
    destruct (Keyed.KeyExists bc key) eqn:He; simpl.
    + rewrite app_nil_r. reflexivity.
    + apply keyed_KeyExists_false in He.
      rewrite map_to_list_insert by assumption.
      apply Permutation_cons_append.
  - rewrite keyed_step_Turn. simpl fst; simpl snd. simpl accepted.
    rewrite !app_nil_r. destruct (Keyed.ctxDone bc).
    + simpl. rewrite since_refl. reflexivity.
    + apply keyed_range_conservation.
  - rewrite keyed_step_Cancel, keyed_Cancel_run. simpl fst; simpl snd. simpl accepted.
    rewrite !app_nil_r.
    apply (keyed_range_conservation true order (Keyed.set_ctxDone true bc) w).
Qed.

(** Single-flush delivery in the keyed engine: along every sequence of
    operations, the pairs delivered to the callback together with the
    pairs still pending are, counted with multiplicity, the pairs that
    were pending at the start and the pairs that [Collapse] stored.  So a
    stored value is delivered at most once, and a delivered one is no
    longer pending. *)
Lemma keyed_single_flush_delivery ops s :
  since (snd s) (snd (Keyed.run ops s))
    ++ map_to_list (Keyed.Values (fst (Keyed.run ops s)))
  ≡ₚ map_to_list (Keyed.Values (fst s)) ++ accepted ops s.
Proof.
  revert s. induction ops as [|o ops IH]; intros s.
  - simpl. rewrite since_refl, app_nil_r. reflexivity.
  - rewrite keyed_run_cons.
    destruct (keyed_step_frame o s) as (_ & _ & l1 & Hl1).
    destruct (keyed_run_frame ops (Keyed.step o s)) as (_ & _ & l2 & Hl2).
    pose proof (keyed_step_conservation o s) as H1.
    pose proof (IH (Keyed.step o s)) as H2.
    rewrite (since_app _ _ _ Hl1) in H1. rewrite (since_app _ _ _ Hl2) in H2.
    rewrite (since_app (snd s) _ (l1 ++ l2)).
    2:{ rewrite Hl2, Hl1, app_assoc. reflexivity. }
    rewrite accepted_cons.
    rewrite <- app_assoc, H2, !app_assoc, H1. reflexivity.
Qed.
End KeyedFacts.

(** * Facts about the single-slot engine *)

Section SingleFacts.
Context {payload Ext : Type}.
Implicit Types bc : SingleSlot.BatchCollapse payload Ext.
Implicit Types w : World Ext (iface payload).
Implicit Types s : SingleSlot.system payload Ext.
Implicit Types value v : iface payload.

Lemma single_notNil_true v : SingleSlot.notNil v = true <-> v <> None.
Proof. destruct v; simpl; split; congruence. Qed.

Lemma single_notNil_false v : SingleSlot.notNil v = false <-> v = None.
Proof. destruct v; simpl; split; congruence. Qed.

Lemma single_timeCondition_value bc w :
  fst (SingleSlot.timeCondition bc w) =
    (SingleSlot.nextExec bc <? clock w (reads w))
    || (SingleSlot.lastExec bc + SingleSlot.MaxDuration (SingleSlot.conf bc)
        <? clock w (S (reads w))).
Proof.
  unfold SingleSlot.timeCondition, bind, ret, time_Now, Time_Before, Time_Add.
  simpl. destruct (SingleSlot.nextExec bc <? clock w (reads w)); reflexivity.
Qed.

Lemma single_timeCondition_world bc w :
  let w' := snd (SingleSlot.timeCondition bc w) in
  clock w' = clock w /\ ext w' = ext w /\ calls w' = calls w /\
  (reads w <= reads w')%nat.
Proof.
  unfold SingleSlot.timeCondition, bind, ret, time_Now. simpl.
  destruct (Time_Before _ _); simpl; auto with lia.
Qed.

Lemma single_timeCondition_steady bc w now :
  steady now w ->
  fst (SingleSlot.timeCondition bc w) =
    spec_shouldFlush now (SingleSlot.lastExec bc) (SingleSlot.nextExec bc)
      (SingleSlot.MaxDuration (SingleSlot.conf bc)) false.
Proof.
  intros Hs. rewrite single_timeCondition_value, !Hs by lia. reflexivity.
Qed.

Lemma single_timeCondition_between bc w :
  clock w (reads w) <= clock w (S (reads w)) ->
  (spec_shouldFlush (clock w (reads w)) (SingleSlot.lastExec bc)
     (SingleSlot.nextExec bc) (SingleSlot.MaxDuration (SingleSlot.conf bc)) false = true ->
   fst (SingleSlot.timeCondition bc w) = true) /\
  (fst (SingleSlot.timeCondition bc w) = true ->
   spec_shouldFlush (clock w (S (reads w))) (SingleSlot.lastExec bc)
     (SingleSlot.nextExec bc) (SingleSlot.MaxDuration (SingleSlot.conf bc)) false = true).
Proof.
  intros Hle. rewrite single_timeCondition_value. unfold spec_shouldFlush. simpl.
  rewrite !orb_true_iff, !Z.ltb_lt. split; intros [H | H]; auto; lia.
Qed.

(** What the closure [doProcess] does: nothing to the engine, or a flush. *)
Lemma single_doProcess_cases bc w :
  let s' := SingleSlot.doProcess bc w in
  let wc := snd (SingleSlot.timeCondition bc w) in
  (fst s' = bc /\ calls (snd s') = calls w /\ ext (snd s') = ext w /\
   clock (snd s') = clock w /\
   (SingleSlot.Value bc = None \/
    SingleSlot.ExecuteFunc (SingleSlot.conf bc) = None \/
    fst (SingleSlot.timeCondition bc w) = false))
  \/
  (exists f,
     SingleSlot.Value bc <> None /\
     SingleSlot.ExecuteFunc (SingleSlot.conf bc) = Some f /\
     fst (SingleSlot.timeCondition bc w) = true /\
     fst s' = single_flushed (clock w (reads wc)) (clock w (S (reads wc))) bc /\
     calls (snd s') = calls w ++ [SingleSlot.Value bc] /\
     ext (snd s') = f (SingleSlot.Value bc) (ext w) /\
     clock (snd s') = clock w).
Proof.
  intros s' wc.
  assert (E : s' = SingleSlot.doProcess bc w) by reflexivity.
  clearbody s'. subst wc. unfold SingleSlot.doProcess in E.
  destruct (SingleSlot.notNil (SingleSlot.Value bc)) eqn:Hk.
  2:{ subst s'. left. apply single_notNil_false in Hk. simpl. auto 10. }
  destruct (SingleSlot.ExecuteFunc (SingleSlot.conf bc)) as [f|] eqn:Hf;
    [|subst s'; left; simpl; auto 10].
  pose proof (single_timeCondition_world bc w) as (Hc & He & Hl & _).
  unfold bind at 1 in E.
  destruct (SingleSlot.timeCondition bc w) as [go wc] eqn:Ht. simpl in *.
  apply single_notNil_true in Hk.
  destruct go; subst s'.
  - right. exists f. unfold bind, invoke, time_Now, ret; simpl.
    rewrite Hc, He, Hl. unfold single_flushed. auto 10.
  - left. unfold ret; simpl. auto 10.
Qed.

Lemma single_Collapse_run value bc w :
  SingleSlot.Collapse value bc w =
    (SingleSlot.set_nextExec
       (clock w (reads w) + SingleSlot.RetentionDuration (SingleSlot.conf bc))
       (if SingleSlot.notNil (SingleSlot.Value bc) then bc
        else SingleSlot.set_Value value bc),
     mkWorld (clock w) (S (reads w)) (ext w) (calls w)).
Proof.
  unfold SingleSlot.Collapse, bind, ret, time_Now, Time_Add.
  destruct (SingleSlot.notNil (SingleSlot.Value bc)); reflexivity.
Qed.

Lemma single_Cancel_run bc w :
  SingleSlot.Cancel bc w =
    (SingleSlot.set_IsCanceled true (SingleSlot.set_ctxDone true bc),
     match SingleSlot.Value bc, SingleSlot.ExecuteFunc (SingleSlot.conf bc) with
     | Some x, Some f =>
         mkWorld (clock w) (reads w) (f (Some x) (ext w)) (calls w ++ [Some x])
     | _, _ => w
     end).
Proof.
  unfold SingleSlot.Cancel. rewrite !bind_run. unfold ret. simpl.
  destruct (SingleSlot.Value bc) as [x|]; simpl;
    [destruct (SingleSlot.ExecuteFunc (SingleSlot.conf bc))|]; reflexivity.
Qed.

Lemma single_step_Collapse value s :
  SingleSlot.step (SingleSlot.OpCollapse value) s =
    SingleSlot.Collapse value (fst s) (snd s).
Proof. reflexivity. Qed.

Lemma single_step_Turn s :
  SingleSlot.step SingleSlot.OpTurn s =
    if SingleSlot.ctxDone (fst s) then s
    else SingleSlot.doProcess (fst s) (snd s).
Proof.
  destruct s as [bc w]. unfold SingleSlot.step, SingleSlot.executeIfCompleted_turn.
  simpl. destruct (SingleSlot.ctxDone bc); [reflexivity|].
  rewrite bind_run. unfold ret. simpl.
  destruct (SingleSlot.doProcess bc w); reflexivity.
Qed.

Lemma single_step_Cancel s :
  SingleSlot.step SingleSlot.OpCancel s = SingleSlot.Cancel (fst s) (snd s).
Proof. reflexivity. Qed.

Lemma single_run_cons o ops s :
  SingleSlot.run (o :: ops) s = SingleSlot.run ops (SingleSlot.step o s).
Proof. reflexivity. Qed.

(** Every operation only appends to the trace, and leaves the
    configuration and the clock alone. *)
Lemma single_step_frame o s :
  SingleSlot.conf (fst (SingleSlot.step o s)) = SingleSlot.conf (fst s) /\
  clock (snd (SingleSlot.step o s)) = clock (snd s) /\
  exists l, calls (snd (SingleSlot.step o s)) = calls (snd s) ++ l.
Proof.
  destruct s as [bc w]. destruct o as [value| |].
  - rewrite single_step_Collapse, single_Collapse_run. simpl.
    split; [destruct (SingleSlot.notNil _); reflexivity|].
    split; [reflexivity|]. no_calls.
  - rewrite single_step_Turn. simpl fst; simpl snd.
    destruct (SingleSlot.ctxDone bc).
    + simpl. split; [reflexivity|]. split; [reflexivity|].
      no_calls.
    + destruct (single_doProcess_cases bc w)
        as [(E & Hl & _ & Hc & _) | (f & _ & _ & _ & E & Hl & _ & Hc)];
        rewrite E, Hl, Hc.
      * split; [reflexivity|]. split; [reflexivity|].
        no_calls.
      * split; [reflexivity|]. split; [reflexivity|]. eauto.
  - rewrite single_step_Cancel, single_Cancel_run. simpl.
    split; [reflexivity|].
    destruct (SingleSlot.Value bc) as [x|];
      [destruct (SingleSlot.ExecuteFunc (SingleSlot.conf bc))|]; simpl;
      (split; [reflexivity|]); eauto; no_calls.
Qed.

Lemma single_run_frame ops s :
  SingleSlot.conf (fst (SingleSlot.run ops s)) = SingleSlot.conf (fst s) /\
  clock (snd (SingleSlot.run ops s)) = clock (snd s) /\
  exists l, calls (snd (SingleSlot.run ops s)) = calls (snd s) ++ l.
Proof.
  revert s. induction ops as [|o ops IH]; intros s.
  - simpl. split; [reflexivity|]. split; [reflexivity|].
    no_calls.
  - rewrite single_run_cons.
    destruct (IH (SingleSlot.step o s)) as (H1 & H2 & l2 & H3).
    destruct (single_step_frame o s) as (G1 & G2 & l1 & G3).
    rewrite H1, H2, H3, G3. split; [assumption|]. split; [assumption|].
    exists (l1 ++ l2). symmetry. apply app_assoc.
Qed.

(** ** The cancelled flag *)

Lemma single_Cancel_IsCanceled bc w :
  SingleSlot.IsCanceled (fst (SingleSlot.Cancel bc w)) = true.
Proof. rewrite single_Cancel_run. reflexivity. Qed.

Lemma single_step_IsCanceled o s :
  single_not_cancel o = true ->
  SingleSlot.IsCanceled (fst (SingleSlot.step o s)) = SingleSlot.IsCanceled (fst s).
Proof.
  destruct s as [bc w]. destruct o as [value| |]; intros Ho.
  - rewrite single_step_Collapse, single_Collapse_run. simpl.
    destruct (SingleSlot.notNil (SingleSlot.Value bc)); reflexivity.
  - rewrite single_step_Turn. simpl fst; simpl snd.
    destruct (SingleSlot.ctxDone bc); [reflexivity|].
    destruct (single_doProcess_cases bc w) as [(E & _) | (f & _ & _ & _ & E & _)];
      rewrite E; reflexivity.
  - discriminate.
Qed.

Lemma single_step_IsCanceled_stays o s :
  SingleSlot.IsCanceled (fst s) = true ->
  SingleSlot.IsCanceled (fst (SingleSlot.step o s)) = true.
Proof.
  intros Hs. destruct o as [value| |].
  - rewrite single_step_IsCanceled; auto.
  - rewrite single_step_IsCanceled; auto.
  - rewrite single_step_Cancel. apply single_Cancel_IsCanceled.
Qed.

(** ** A nil callback *)

Lemma single_doProcess_nil bc w :
  SingleSlot.ExecuteFunc (SingleSlot.conf bc) = None ->
  SingleSlot.doProcess bc w = (bc, w).
Proof.
  intros Hf. unfold SingleSlot.doProcess. rewrite Hf.
  destruct (SingleSlot.notNil (SingleSlot.Value bc)); reflexivity.
Qed.

Lemma single_step_nil o s :
  SingleSlot.ExecuteFunc (SingleSlot.conf (fst s)) = None ->
  calls (snd (SingleSlot.step o s)) = calls (snd s) /\
  ext (snd (SingleSlot.step o s)) = ext (snd s) /\
  (SingleSlot.Value (fst s) <> None ->
   SingleSlot.Value (fst (SingleSlot.step o s)) = SingleSlot.Value (fst s)).
Proof.
  destruct s as [bc w]. simpl fst; simpl snd. intros Hf.
  destruct o as [value| |].
  - rewrite single_step_Collapse, single_Collapse_run. simpl.
    split; [reflexivity|]. split; [reflexivity|].
    intros Hv. apply single_notNil_true in Hv. rewrite Hv. reflexivity.
  - rewrite single_step_Turn. simpl fst; simpl snd.
    destruct (SingleSlot.ctxDone bc); [auto|].
    rewrite single_doProcess_nil by assumption. auto.
  - rewrite single_step_Cancel, single_Cancel_run. simpl fst; simpl snd.
    rewrite Hf. destruct (SingleSlot.Value bc) eqn:Hv; simpl; auto.
Qed.

Lemma single_run_nil ops s :
  SingleSlot.ExecuteFunc (SingleSlot.conf (fst s)) = None ->
  calls (snd (SingleSlot.run ops s)) = calls (snd s) /\
  ext (snd (SingleSlot.run ops s)) = ext (snd s) /\
  (SingleSlot.Value (fst s) <> None ->
   SingleSlot.Value (fst (SingleSlot.run ops s)) = SingleSlot.Value (fst s)).
Proof.
  revert s. induction ops as [|o ops IH]; intros s Hf; [simpl; auto|].
  rewrite single_run_cons.
  destruct (single_step_nil o s Hf) as (G1 & G2 & G3).
  destruct (IH (SingleSlot.step o s)) as (H1 & H2 & H3).
  { destruct (single_step_frame o s) as [-> _]. assumption. }
  rewrite H1, H2. split; [assumption|]. split; [assumption|].
  intros Hv. rewrite H3; rewrite G3; auto.
Qed.

(** ** Only non-nil payloads reach the callback *)

Lemma single_step_delivers_non_nil o s :
  exists l, calls (snd (SingleSlot.step o s)) = calls (snd s) ++ l /\
            Forall (fun c => c <> None) l.
Proof.
  destruct s as [bc w]. simpl fst; simpl snd. destruct o as [value| |].
  - rewrite single_step_Collapse, single_Collapse_run. simpl.
    nothing_new; constructor.
  - rewrite single_step_Turn. simpl fst; simpl snd.
    destruct (SingleSlot.ctxDone bc).
    + nothing_new; constructor.
    + destruct (single_doProcess_cases bc w)
        as [(_ & Hl & _) | (f & Hv & _ & _ & _ & Hl & _)]; rewrite Hl.
      * nothing_new; constructor.
      * exists [SingleSlot.Value bc]. split; [reflexivity|].
        constructor; [assumption | constructor].
  - rewrite single_step_Cancel, single_Cancel_run. simpl fst; simpl snd.
    destruct (SingleSlot.Value bc) as [x|];
      [destruct (SingleSlot.ExecuteFunc (SingleSlot.conf bc))|].
    + exists [Some x]. split; [reflexivity|].
      constructor; [discriminate | constructor].
    + nothing_new; constructor.
    + nothing_new; constructor.
Qed.

Lemma single_run_delivers_non_nil ops s :
  exists l, calls (snd (SingleSlot.run ops s)) = calls (snd s) ++ l /\
            Forall (fun c => c <> None) l.
Proof.
  revert s. induction ops as [|o ops IH]; intros s.
  - nothing_new; constructor.
  - rewrite single_run_cons.
    destruct (IH (SingleSlot.step o s)) as (l2 & H2 & F2).
    destruct (single_step_delivers_non_nil o s) as (l1 & H1 & F1).
    exists (l1 ++ l2). rewrite H2, H1, app_assoc. split; [reflexivity|].
    apply Forall_app; auto.
Qed.

(** ** The flush decision under a clock that stands still *)

Lemma single_doProcess_decision bc w f now :
  SingleSlot.Value bc <> None ->
  SingleSlot.ExecuteFunc (SingleSlot.conf bc) = Some f ->
  steady now w ->
  let e := SingleSlot.doProcess bc w in
  if spec_shouldFlush now (SingleSlot.lastExec bc) (SingleSlot.nextExec bc)
       (SingleSlot.MaxDuration (SingleSlot.conf bc)) false
  then calls (snd e) = calls w ++ [SingleSlot.Value bc] /\
       fst e = single_flushed now now bc /\
       ext (snd e) = f (SingleSlot.Value bc) (ext w)
  else calls (snd e) = calls w /\ fst e = bc /\ ext (snd e) = ext w.
Proof.
  intros Hv Hf Hs. cbv zeta.
  rewrite <- (single_timeCondition_steady bc w now Hs).
  pose proof (single_timeCondition_world bc w) as (_ & _ & _ & Hr).
  destruct (single_doProcess_cases bc w)
    as [(E & Hl & He & _ & [Hk | [Hn | Ht]])
       | (f' & _ & Hf' & Ht & E & Hl & He & _)].
  - contradiction.
  - congruence.
  - rewrite Ht. auto.
  - rewrite Ht, E, !Hs by lia. rewrite Hf in Hf'. injection Hf' as <-. auto.
Qed.

(** ** The first delivery *)

Lemma single_step_first_delivery o s x :
  SingleSlot.Value (fst s) = Some x ->
  exists l, calls (snd (SingleSlot.step o s)) = calls (snd s) ++ l /\
    match l with
    | [] => SingleSlot.Value (fst (SingleSlot.step o s)) = Some x
    | v :: _ => v = Some x
    end.
Proof.
  destruct s as [bc w]. simpl fst; simpl snd. intros Hv.
  destruct o as [value| |].
  - rewrite single_step_Collapse, single_Collapse_run. simpl.
    nothing_new.
    rewrite Hv. simpl. assumption.
  - rewrite single_step_Turn. simpl fst; simpl snd.
    destruct (SingleSlot.ctxDone bc).
    + nothing_new; assumption.
    + destruct (single_doProcess_cases bc w)
        as [(E & Hl & _) | (f & _ & _ & _ & _ & Hl & _)]; rewrite Hl.
      * nothing_new; rewrite E; assumption.
      * exists [SingleSlot.Value bc]. split; [reflexivity | assumption].
  - rewrite single_step_Cancel, single_Cancel_run. simpl fst; simpl snd.
    rewrite Hv. destruct (SingleSlot.ExecuteFunc (SingleSlot.conf bc)); simpl.
    + exists [Some x]. split; reflexivity.
    + nothing_new; assumption.
Qed.

Lemma single_run_first_delivery ops s x :
  SingleSlot.Value (fst s) = Some x ->
  match since (snd s) (snd (SingleSlot.run ops s)) with
  | [] => SingleSlot.Value (fst (SingleSlot.run ops s)) = Some x
  | v :: _ => v = Some x
  end.
Proof.
  revert s. induction ops as [|o ops IH]; intros s Hv.
  - simpl. rewrite since_refl. assumption.
  - rewrite single_run_cons.
    destruct (single_step_first_delivery o s x Hv) as (l1 & Hl1 & H1).
    destruct (single_run_frame ops (SingleSlot.step o s)) as (_ & _ & l2 & Hl2).
    rewrite (since_app (snd s) _ (l1 ++ l2)).
    2:{ rewrite Hl2, Hl1, app_assoc. reflexivity. }
    destruct l1 as [|v rest]; [|assumption].
    specialize (IH (SingleSlot.step o s) H1).
    rewrite (since_app _ _ _ Hl2) in IH. assumption.
Qed.

Lemma single_collapse_twice x v2 s :
  SingleSlot.Value (fst s) = None ->
  SingleSlot.Value
    (fst (SingleSlot.run [SingleSlot.OpCollapse (Some x); SingleSlot.OpCollapse v2] s))
  = Some x.
Proof.
  destruct s as [bc w]. intros Hv. simpl in Hv.
  rewrite !single_run_cons, !single_step_Collapse, !single_Collapse_run. simpl.
  rewrite Hv. reflexivity.
Qed.
(** ** [Cancel] leaves the slot as it is *)

Lemma single_Cancel_keeps_Value bc w :
  SingleSlot.Value (fst (SingleSlot.Cancel bc w)) = SingleSlot.Value bc.
Proof. rewrite single_Cancel_run. reflexivity. Qed.

(** Two cancels in a row deliver a pending value twice. *)
Lemma single_Cancel_twice bc w f x :
  SingleSlot.Value bc = Some x ->
  SingleSlot.ExecuteFunc (SingleSlot.conf bc) = Some f ->
  since w (snd (SingleSlot.run [SingleSlot.OpCancel; SingleSlot.OpCancel] (bc, w)))
  = [Some x; Some x].
Proof.
  intros Hv Hf.
  rewrite !single_run_cons, !single_step_Cancel, !single_Cancel_run. simpl.
  rewrite Hv, Hf. simpl. apply since_app. rewrite <- app_assoc. reflexivity.
Qed.
End SingleFacts.

(** * The tests of the repository, run on the model *)

(** [TestCollapse] *)
Example single_TestCollapse :
  SingleSlot.Value (fst (single_fresh (Some test_callback))) = None /\
  SingleSlot.Value
    (fst (SingleSlot.run [SingleSlot.OpCollapse (Some 10)]
            (single_fresh (Some test_callback)))) = Some 10.
Proof. split; reflexivity. Qed.

(** [TestExec]: after the sleep the callback has run. *)
Example single_TestExec :
  let s := SingleSlot.run [SingleSlot.OpCollapse (Some 10); SingleSlot.OpTurn]
             (SingleSlot.CreateBatchCollapse (exec_conf 1) exec_world) in
  ext (snd s) = 11 /\ calls (snd s) = [Some 10] /\ SingleSlot.Value (fst s) = None.
Proof. cbv zeta. split; [|split]; reflexivity. Qed.

(** [TestExecMulti]: three collapses, nothing delivered when the loop
    wakes at the end of the retention window, one delivery after it. *)
Example single_TestExecMulti :
  let s1 := SingleSlot.run [SingleSlot.OpCollapse (Some 10);
                            SingleSlot.OpCollapse (Some 10);
                            SingleSlot.OpCollapse (Some 10)]
              (SingleSlot.CreateBatchCollapse (exec_conf 5) multi_world) in
  let s2 := SingleSlot.run [SingleSlot.OpTurn] s1 in
  let s3 := SingleSlot.run [SingleSlot.OpTurn] s2 in
  ext (snd s1) = 10 /\ ext (snd s2) = 10 /\
  ext (snd s3) = 11 /\ calls (snd s3) = [Some 10].
Proof. cbv zeta. split; [|split; [|split]]; reflexivity. Qed.

(** [TestCancel__WithExec] *)
Example single_TestCancel_WithExec :
  let s1 := single_pending (Some test_callback) in
  let s2 := SingleSlot.run [SingleSlot.OpCancel] s1 in
  ext (snd s1) = 10 /\ SingleSlot.IsCanceled (fst s1) = false /\
  SingleSlot.IsCanceled (fst s2) = true /\ ext (snd s2) = 11.
Proof. cbv zeta. split; [|split; [|split]]; reflexivity. Qed.

(** [TestCancel__WithoutExec] *)
Example single_TestCancel_WithoutExec :
  let s1 := single_fresh (Some test_callback) in
  let s2 := SingleSlot.run [SingleSlot.OpCancel] s1 in
  SingleSlot.IsCanceled (fst s1) = false /\
  SingleSlot.IsCanceled (fst s2) = true /\ calls (snd s2) = [].
Proof. cbv zeta. split; [|split]; reflexivity. Qed.

(** The keyed engine shares one pair of watermarks among its keys: a pass
    without force delivers the first key it meets and, having moved
    [nextExec], leaves the other pending; a forced pass delivers both. *)
Example keyed_shared_watermarks :
  let bc := fst keyed_two_pending in
  let w := snd keyed_two_pending in
  let s_ab := Keyed.doProcess false ["a"; "b"] bc w in
  let s_ba := Keyed.doProcess false ["b"; "a"] bc w in
  let s_f := Keyed.doProcess true ["a"; "b"] bc w in
  since w (snd s_ab) = [("a", Some 10)] /\
  Keyed.Values (fst s_ab) !! "b" = Some (Some 20) /\
  since w (snd s_ba) = [("b", Some 20)] /\
  Keyed.Values (fst s_ba) !! "a" = Some (Some 10) /\
  since w (snd s_f) = [("a", Some 10); ("b", Some 20)] /\
  Keyed.Values (fst s_f) = ∅.
Proof. cbv zeta. repeat split; reflexivity. Qed.

(** * The claims *)

(** C1, as stated, fails in the single-slot engine when the first payload
    is nil: after [Collapse(nil)] and [Collapse(10)] on the empty slot the
    stored value is 10, the second payload, and 10 is what the callback
    receives. *)
Lemma C1_first_write_wins_counterexample :
  let v1 : iface Z := None in
  let v2 : iface Z := Some 10 in
  let s := single_fresh (Some test_callback) in
  let s2 := SingleSlot.run [SingleSlot.OpCollapse v1; SingleSlot.OpCollapse v2] s in
  SingleSlot.Value (fst s) = None /\
  SingleSlot.Value (fst s2) <> v1 /\
  SingleSlot.Value (fst s2) = v2 /\
  since (snd s2) (snd (SingleSlot.run [SingleSlot.OpCancel] s2)) = [v2].
Proof.
  cbv zeta. split; [reflexivity|]. split; [discriminate|].
  split; reflexivity.
Qed.

(** C1, amended — First write wins.  Keyed engine: for every key [K] with
    nothing pending and all payloads [v1], [v2], after [Collapse(K, v1)]
    and [Collapse(K, v2)] the value stored under [K] is [v1]; and whatever
    operations follow, [v1] stays stored under [K] until the callback is
    invoked for [K], and the first value it then receives for [K] is [v1].
    Single-slot engine: the same for the empty slot and every non-nil
    first payload. *)
Theorem C1_first_write_wins :
  (forall (payload Ext : Type) (s : Keyed.system payload Ext) (K : string)
          (v1 v2 : iface payload),
      Keyed.Values (fst s) !! K = None ->
      let s2 := Keyed.run [Keyed.OpCollapse K v1; Keyed.OpCollapse K v2] s in
      Keyed.Values (fst s2) !! K = Some v1 /\
      forall ops : list (Keyed.op payload),
        let s3 := Keyed.run ops s2 in
        match delivered_for K (since (snd s2) (snd s3)) with
        | [] => Keyed.Values (fst s3) !! K = Some v1
        | v :: _ => v = v1
        end)
  /\
  (forall (payload Ext : Type) (s : SingleSlot.system payload Ext) (x : payload)
          (v2 : iface payload),
      SingleSlot.Value (fst s) = None ->
      let s2 := SingleSlot.run [SingleSlot.OpCollapse (Some x);
                                SingleSlot.OpCollapse v2] s in
      SingleSlot.Value (fst s2) = Some x /\
      forall ops : list (SingleSlot.op payload),
        let s3 := SingleSlot.run ops s2 in
        match since (snd s2) (snd s3) with
        | [] => SingleSlot.Value (fst s3) = Some x
        | v :: _ => v = Some x
        end).
Proof.
  split.
  - intros payload Ext s K v1 v2 Hv. cbv zeta.
    pose proof (keyed_collapse_twice K v1 v2 s Hv) as H2.
    split; [assumption|].
    intros ops. apply keyed_run_first_delivery. assumption.
  - intros payload Ext s x v2 Hv. cbv zeta.
    pose proof (single_collapse_twice x v2 s Hv) as H2.
    split; [assumption|].
    intros ops. apply single_run_first_delivery. assumption.
Qed.

(** On the fresh test engines: 10 then 20 are collapsed; 10 is stored; a
    turn of the loop before the retention has elapsed, a third collapse
    and a cancel follow, and the one value delivered is 10. *)
Lemma C1_first_write_wins_witness :
  (Keyed.Values (fst (keyed_fresh (Some test_callback))) !! "a" = None /\
   let s2 := Keyed.run [Keyed.OpCollapse "a" (Some 10); Keyed.OpCollapse "a" (Some 20)]
               (keyed_fresh (Some test_callback)) in
   Keyed.Values (fst s2) !! "a" = Some (Some 10) /\
   let s3 := Keyed.run [Keyed.OpTurn ["a"]; Keyed.OpCollapse "a" (Some 30);
                        Keyed.OpCancel ["a"]] s2 in
   delivered_for "a" (since (snd s2) (snd s3)) = [Some 10])
  /\
  (SingleSlot.Value (fst (single_fresh (Some test_callback))) = None /\
   let s2 := SingleSlot.run [SingleSlot.OpCollapse (Some 10);
                             SingleSlot.OpCollapse (Some 20)]
               (single_fresh (Some test_callback)) in
   SingleSlot.Value (fst s2) = Some 10 /\
   let s3 := SingleSlot.run [SingleSlot.OpTurn; SingleSlot.OpCollapse (Some 30);
                             SingleSlot.OpCancel] s2 in
   since (snd s2) (snd s3) = [Some 10]).
Proof.
  split.
  - split; [reflexivity|]. cbv zeta.
    destruct (proj1 C1_first_write_wins Z Z (keyed_fresh (Some test_callback)) "a"
                (Some 10) (Some 20) eq_refl) as [H1 H2].
    split; [exact H1|].
    specialize (H2 [Keyed.OpTurn ["a"]; Keyed.OpCollapse "a" (Some 30);
                    Keyed.OpCancel ["a"]]).
    reflexivity.
  - split; [reflexivity|]. cbv zeta.
    destruct (proj2 C1_first_write_wins Z Z (single_fresh (Some test_callback)) 10
                (Some 20) eq_refl) as [H1 H2].
    split; [exact H1|].
    specialize (H2 [SingleSlot.OpTurn; SingleSlot.OpCollapse (Some 30);
                    SingleSlot.OpCancel]).
    reflexivity.
Defined.

(** C2 — The flush decision.  Given a non-nil [ExecuteFunc] and the clock
    standing at [now] while the entry is evaluated, the entry is flushed
    (delivered to the callback and removed) if and only if
    [shouldFlush(now, lastExec, nextExec, maxDuration, force)] holds, that
    is [force], or [now > nextExec], or [now > lastExec + maxDuration];
    otherwise the engine is left as it was.  This holds for one run of the
    loop body of the keyed [doProcess], for each key of a whole pass (with
    the watermarks as they are when the key's turn comes), and for the
    single-slot [doProcess], whose [force] is false. *)
Theorem C2_flush_decision :
  (forall (payload Ext : Type) (force : bool) (key : string) (value : iface payload)
          (bc : Keyed.BatchCollapse payload Ext)
          (w : World Ext (string * iface payload))
          (f : iface payload -> Ext -> Ext) (now : Time),
      Keyed.Values bc !! key = Some value ->
      Keyed.ExecuteFunc (Keyed.conf bc) = Some f ->
      steady now w ->
      let e := Keyed.doProcess_entry force key value bc w in
      let go := spec_shouldFlush now (Keyed.lastExec bc) (Keyed.nextExec bc)
                  (Keyed.MaxDuration (Keyed.conf bc)) force in
      (since w (snd e) = [(key, value)] <-> go = true) /\
      (Keyed.Values (fst e) !! key = None <-> go = true) /\
      (go = false -> fst e = bc /\ since w (snd e) = []))
  /\
  (forall (payload Ext : Type) (force : bool) (pre : list string) (key : string)
          (post : list string) (value : iface payload)
          (bc : Keyed.BatchCollapse payload Ext)
          (w : World Ext (string * iface payload))
          (f : iface payload -> Ext -> Ext) (now : Time),
      NoDup (pre ++ key :: post) ->
      Keyed.Values bc !! key = Some value ->
      Keyed.ExecuteFunc (Keyed.conf bc) = Some f ->
      steady now w ->
      let mid := Keyed.range_Values force pre bc w in
      let s' := Keyed.doProcess force (pre ++ key :: post) bc w in
      let go := spec_shouldFlush now (Keyed.lastExec (fst mid))
                  (Keyed.nextExec (fst mid))
                  (Keyed.MaxDuration (Keyed.conf bc)) force in
      ((key, value) ∈ since w (snd s') <-> go = true) /\
      (Keyed.Values (fst s') !! key = None <-> go = true))
  /\
  (forall (payload Ext : Type) (bc : SingleSlot.BatchCollapse payload Ext)
          (w : World Ext (iface payload))
          (f : iface payload -> Ext -> Ext) (now : Time),
      SingleSlot.Value bc <> None ->
      SingleSlot.ExecuteFunc (SingleSlot.conf bc) = Some f ->
      steady now w ->
      let e := SingleSlot.doProcess bc w in
      let go := spec_shouldFlush now (SingleSlot.lastExec bc) (SingleSlot.nextExec bc)
                  (SingleSlot.MaxDuration (SingleSlot.conf bc)) false in
      (since w (snd e) = [SingleSlot.Value bc] <-> go = true) /\
      (SingleSlot.Value (fst e) = None <-> go = true) /\
      (go = false -> fst e = bc /\ since w (snd e) = [])).
Proof.
  split; [|split].
  - intros payload Ext force key value bc w f now Hv Hf Hs. cbv zeta.
    pose proof (keyed_entry_decision force key value bc w f now Hv Hf Hs) as Hd.
    cbv zeta in Hd.
    destruct (spec_shouldFlush now (Keyed.lastExec bc) (Keyed.nextExec bc)
                (Keyed.MaxDuration (Keyed.conf bc)) force).
    + destruct Hd as (Hl & E & _).
      rewrite (since_app _ _ _ Hl), E. unfold keyed_flushed. simpl.
      rewrite lookup_delete_eq. split; [tauto|]. split; [tauto|]. discriminate.
    + destruct Hd as (Hl & E & _).
      rewrite (since_same_calls _ _ Hl), E, Hv.
      split; [split; discriminate|]. split; [split; discriminate|]. auto.
  - intros payload Ext force pre key post value bc w f now.
    apply keyed_pass_decision.
  - intros payload Ext bc w f now Hv Hf Hs. cbv zeta.
    pose proof (single_doProcess_decision bc w f now Hv Hf Hs) as Hd.
    cbv zeta in Hd.
    destruct (spec_shouldFlush now (SingleSlot.lastExec bc) (SingleSlot.nextExec bc)
                (SingleSlot.MaxDuration (SingleSlot.conf bc)) false).
    + destruct Hd as (Hl & E & _).
      rewrite (since_app _ _ _ Hl), E. unfold single_flushed. simpl.
      split; [tauto|]. split; [tauto|]. discriminate.
    + destruct Hd as (Hl & E & _).
      rewrite (since_same_calls _ _ Hl), E.
      split; [split; [|discriminate]|]; [|split; [split; [|discriminate]|]]; auto.
      intros H. destruct (SingleSlot.Value bc); [discriminate H | contradiction].
Qed.

(** The overdue test engines on [jump_clock], evaluated without force: the
    clock stands at 7000, after [nextExec] = 6000; the predicate holds and
    the entry is flushed. *)
Lemma C2_flush_decision_witness :
  (Keyed.Values (fst (keyed_overdue jump_clock)) !! "a" = Some (Some 10) /\
   steady 7000 (snd (keyed_overdue jump_clock)) /\
   spec_shouldFlush 7000 1000 6000 60000 false = true /\
   since (snd (keyed_overdue jump_clock))
     (snd (Keyed.doProcess_entry false "a" (Some 10)
             (fst (keyed_overdue jump_clock)) (snd (keyed_overdue jump_clock))))
   = [("a", Some 10)])
  /\
  (NoDup ([] ++ "a" :: []) /\
   Keyed.Values
     (fst (Keyed.doProcess false ([] ++ "a" :: [])
             (fst (keyed_overdue jump_clock)) (snd (keyed_overdue jump_clock))))
     !! "a" = None)
  /\
  (SingleSlot.Value (fst (single_overdue jump_clock)) <> None /\
   steady 7000 (snd (single_overdue jump_clock)) /\
   SingleSlot.Value
     (fst (SingleSlot.doProcess (fst (single_overdue jump_clock))
             (snd (single_overdue jump_clock)))) = None).
Proof.
  assert (Hk : steady 7000 (snd (keyed_overdue jump_clock)))
    by (apply jump_clock_steady; [reflexivity | vm_compute; lia]).
  assert (Hs : steady 7000 (snd (single_overdue jump_clock)))
    by (apply jump_clock_steady; [reflexivity | vm_compute; lia]).
  assert (Hnd : NoDup ([] ++ "a" :: [])) by (apply NoDup_singleton).
  split; [|split].
  - split; [reflexivity|]. split; [exact Hk|]. split; [reflexivity|].
    apply (proj1 C2_flush_decision Z Z false "a" (Some 10)
             (fst (keyed_overdue jump_clock)) (snd (keyed_overdue jump_clock))
             test_callback 7000 eq_refl eq_refl Hk).
    reflexivity.
  - split; [exact Hnd|].
    apply (proj1 (proj2 C2_flush_decision) Z Z false [] "a" [] (Some 10)
             (fst (keyed_overdue jump_clock)) (snd (keyed_overdue jump_clock))
             test_callback 7000 Hnd eq_refl eq_refl Hk).
    reflexivity.
  - split; [discriminate|]. split; [exact Hs|].
    apply (proj2 (proj2 C2_flush_decision) Z Z
             (fst (single_overdue jump_clock)) (snd (single_overdue jump_clock))
             test_callback 7000); [discriminate | reflexivity | exact Hs | reflexivity].
Defined.

(** C3 — Single-flush delivery, at the input where the single-slot engine
    breaks it.  One value, 10, is collapsed into the fresh test engine.
    [Cancel] delivers it and leaves it in the slot: [Cancel] does not
    reset [Value], unlike the closure [doProcess] of the same engine and
    unlike [Cancel] of the keyed engine.  A second [Cancel] delivers the
    same value again.  In general: [single_Cancel_keeps_Value] and
    [single_Cancel_twice].  For the keyed engine the property holds:
    [keyed_single_flush_delivery]. *)
Theorem C3_single_slot_cancel_redelivers :
  let s0 := single_fresh (Some test_callback) in
  let s1 := SingleSlot.run [SingleSlot.OpCollapse (Some 10); SingleSlot.OpCancel] s0 in
  let s2 := SingleSlot.run [SingleSlot.OpCancel] s1 in
  since (snd s0) (snd s1) = [Some 10] /\
  SingleSlot.Value (fst s1) = Some 10 /\
  since (snd s0) (snd s2) = [Some 10; Some 10].
Proof.
  cbv zeta. split; [reflexivity|]. split; reflexivity.
Qed.

(** C4, as stated, fails when [ExecuteFunc] is nil: the engine holds a
    pending 10 under ["a"] (in its slot), [Cancel] invokes nothing and the
    value is still pending afterwards. *)
Lemma C4_cancel_drains_counterexample :
  (Keyed.Values (fst (keyed_pending None)) !! "a" = Some (Some 10) /\
   Keyed.order_of (fst (keyed_pending None)) ["a"] /\
   let s' := Keyed.Cancel ["a"] (fst (keyed_pending None)) (snd (keyed_pending None)) in
   since (snd (keyed_pending None)) (snd s') = [] /\
   Keyed.Values (fst s') !! "a" = Some (Some 10))
  /\
  (SingleSlot.Value (fst (single_pending None)) = Some 10 /\
   let s' := SingleSlot.Cancel (fst (single_pending None)) (snd (single_pending None)) in
   since (snd (single_pending None)) (snd s') = [] /\
   SingleSlot.Value (fst s') = Some 10).
Proof.
  split.
  - split; [reflexivity|]. split.
    + split; [apply NoDup_singleton | reflexivity].
    + cbv zeta. split; reflexivity.
  - split; [reflexivity|]. cbv zeta. split; reflexivity.
Qed.

(** C4, amended — [Cancel] drains, given a callback.  When [ExecuteFunc]
    is non-nil, [Cancel] delivers every pending value to the callback
    whatever the clock and the watermarks are (so also before
    [RetentionDuration] has elapsed), and [IsCanceled] is true when it
    returns.  In the keyed engine the entry is removed as well. *)
Theorem C4_cancel_drains :
  (forall (payload Ext : Type) (order : list string)
          (bc : Keyed.BatchCollapse payload Ext)
          (w : World Ext (string * iface payload))
          (f : iface payload -> Ext -> Ext) (k : string) (v : iface payload),
      Keyed.Values bc !! k = Some v ->
      Keyed.ExecuteFunc (Keyed.conf bc) = Some f ->
      Keyed.order_of bc order ->
      let s' := Keyed.Cancel order bc w in
      (k, v) ∈ since w (snd s') /\
      Keyed.Values (fst s') !! k = None /\
      Keyed.IsCanceled (fst s') = true)
  /\
  (forall (payload Ext : Type) (bc : SingleSlot.BatchCollapse payload Ext)
          (w : World Ext (iface payload))
          (f : iface payload -> Ext -> Ext) (x : payload),
      SingleSlot.Value bc = Some x ->
      SingleSlot.ExecuteFunc (SingleSlot.conf bc) = Some f ->
      let s' := SingleSlot.Cancel bc w in
      since w (snd s') = [Some x] /\
      ext (snd s') = f (Some x) (ext w) /\
      SingleSlot.IsCanceled (fst s') = true).
Proof.
  split.
  - intros payload Ext order bc w f k v. apply keyed_Cancel_drains.
  - intros payload Ext bc w f x Hv Hf. cbv zeta.
    rewrite single_Cancel_run, Hv, Hf. simpl.
    split; [apply since_app; reflexivity | auto].
Qed.

(** [TestCancel__WithExec]: retention 5000, one collapse of 10 at instant
    1000, then [Cancel] at instant 1000, before [nextExec] = 6000.  The
    callback receives 10 (and sets the tester's integer to 11), and the
    flag is raised. *)
Lemma C4_cancel_drains_witness :
  (Keyed.Values (fst (keyed_pending (Some test_callback))) !! "a" = Some (Some 10) /\
   Keyed.order_of (fst (keyed_pending (Some test_callback))) ["a"] /\
   now_of (snd (keyed_pending (Some test_callback)))
     < Keyed.nextExec (fst (keyed_pending (Some test_callback))) /\
   let s' := Keyed.Cancel ["a"] (fst (keyed_pending (Some test_callback)))
               (snd (keyed_pending (Some test_callback))) in
   ("a", Some 10) ∈ since (snd (keyed_pending (Some test_callback))) (snd s') /\
   Keyed.Values (fst s') !! "a" = None /\
   Keyed.IsCanceled (fst s') = true)
  /\
  (SingleSlot.Value (fst (single_pending (Some test_callback))) = Some 10 /\
   now_of (snd (single_pending (Some test_callback)))
     < SingleSlot.nextExec (fst (single_pending (Some test_callback))) /\
   let s' := SingleSlot.Cancel (fst (single_pending (Some test_callback)))
               (snd (single_pending (Some test_callback))) in
   since (snd (single_pending (Some test_callback))) (snd s') = [Some 10] /\
   ext (snd s') = 11 /\
   SingleSlot.IsCanceled (fst s') = true).
Proof.
  split.
  - split; [reflexivity|].
    assert (Hord : Keyed.order_of (fst (keyed_pending (Some test_callback))) ["a"])
      by (split; [apply NoDup_singleton | reflexivity]).
    split; [exact Hord|]. split; [reflexivity|].
    apply (proj1 C4_cancel_drains Z Z ["a"] (fst (keyed_pending (Some test_callback)))
             (snd (keyed_pending (Some test_callback))) test_callback "a" (Some 10)
             eq_refl eq_refl Hord).
  - split; [reflexivity|]. split; [reflexivity|].
    apply (proj2 C4_cancel_drains Z Z (fst (single_pending (Some test_callback)))
             (snd (single_pending (Some test_callback))) test_callback 10
             eq_refl eq_refl).
Defined.

(** C5 — Flush postcondition.  Whenever the condition of the [if] in
    [doProcess] holds for an entry (the key exists, [ExecuteFunc] is
    non-nil, and the timing disjunction evaluates to true), the callback is
    invoked once with the entry's value, then [lastExec] is set to the
    reading of the clock, [nextExec] to the next reading plus
    [RetentionDuration], and the entry is removed; with the clock standing
    at [now] the two watermarks are [now] and [now + RetentionDuration].
    For a whole pass of the keyed engine: every delivered pair was pending
    when the pass began and is gone when it ends, and if anything was
    delivered the watermarks are the ones just described. *)
Theorem C5_flush_postcondition :
  (forall (payload Ext : Type) (force : bool) (key : string) (value : iface payload)
          (bc : Keyed.BatchCollapse payload Ext)
          (w : World Ext (string * iface payload))
          (f : iface payload -> Ext -> Ext),
      Keyed.KeyExists bc key = true ->
      Keyed.ExecuteFunc (Keyed.conf bc) = Some f ->
      fst (Keyed.timeCondition force bc w) = true ->
      let e := Keyed.doProcess_entry force key value bc w in
      let wc := snd (Keyed.timeCondition force bc w) in
      since w (snd e) = [(key, value)] /\
      ext (snd e) = f value (ext w) /\
      Keyed.lastExec (fst e) = now_of wc /\
      Keyed.nextExec (fst e) =
        Time_Add (clock wc (S (reads wc))) (Keyed.RetentionDuration (Keyed.conf bc)) /\
      Keyed.Values (fst e) = delete key (Keyed.Values bc) /\
      forall now, steady now w ->
        Keyed.lastExec (fst e) = now /\
        Keyed.nextExec (fst e) =
          Time_Add now (Keyed.RetentionDuration (Keyed.conf bc)))
  /\
  (forall (payload Ext : Type) (force : bool) (order : list string)
          (bc : Keyed.BatchCollapse payload Ext)
          (w : World Ext (string * iface payload)) (now : Time),
      steady now w ->
      let s' := Keyed.doProcess force order bc w in
      (forall k v, (k, v) ∈ since w (snd s') ->
                   Keyed.Values bc !! k = Some v /\
                   Keyed.Values (fst s') !! k = None) /\
      (since w (snd s') <> [] ->
       Keyed.lastExec (fst s') = now /\
       Keyed.nextExec (fst s') =
         Time_Add now (Keyed.RetentionDuration (Keyed.conf bc))))
  /\
  (forall (payload Ext : Type) (bc : SingleSlot.BatchCollapse payload Ext)
          (w : World Ext (iface payload))
          (f : iface payload -> Ext -> Ext),
      SingleSlot.Value bc <> None ->
      SingleSlot.ExecuteFunc (SingleSlot.conf bc) = Some f ->
      fst (SingleSlot.timeCondition bc w) = true ->
      let e := SingleSlot.doProcess bc w in
      let wc := snd (SingleSlot.timeCondition bc w) in
      since w (snd e) = [SingleSlot.Value bc] /\
      ext (snd e) = f (SingleSlot.Value bc) (ext w) /\
      SingleSlot.lastExec (fst e) = now_of wc /\
      SingleSlot.nextExec (fst e) =
        Time_Add (clock wc (S (reads wc)))
          (SingleSlot.RetentionDuration (SingleSlot.conf bc)) /\
      SingleSlot.Value (fst e) = None /\
      forall now, steady now w ->
        SingleSlot.lastExec (fst e) = now /\
        SingleSlot.nextExec (fst e) =
          Time_Add now (SingleSlot.RetentionDuration (SingleSlot.conf bc))).
Proof.
  split; [|split].
  - intros payload Ext force key value bc w f Hk Hf Ht. cbv zeta.
    destruct (keyed_timeCondition_world force bc w) as (Hc & _ & _ & Hr).
    destruct (keyed_entry_cases force key value bc w)
      as [(_ & _ & _ & _ & [Hk' | [Hn | Ht']])
         | (f' & _ & Hf' & _ & E & Hl & He & _)]; try congruence.
    rewrite Hf in Hf'. injection Hf' as <-.
    rewrite (since_app _ _ _ Hl), E, He. unfold keyed_flushed, now_of. simpl.
    rewrite Hc. do 5 (split; [reflexivity|]).
    intros now Hs. rewrite !Hs by lia. split; reflexivity.
  - intros payload Ext force order bc w now Hs. cbv zeta. unfold Keyed.doProcess.
    split.
    + intros k v Hin.
      destruct (keyed_range_spec force order bc w) as (l & Hl & _ & Hin' & Hlook).
      rewrite (since_app _ _ _ Hl) in Hin.
      split; [apply (Hin' k v Hin)|].
      rewrite Hlook, bool_decide_eq_true_2; [reflexivity|].
      apply list_elem_of_fmap. exists (k, v). auto.
    + intros Hne.
      destruct (keyed_range_watermarks force order bc w now Hs)
        as [(H & _) | (_ & H1 & H2)]; [contradiction | auto].
  - intros payload Ext bc w f Hk Hf Ht. cbv zeta.
    destruct (single_timeCondition_world bc w) as (Hc & _ & _ & Hr).
    destruct (single_doProcess_cases bc w)
      as [(_ & _ & _ & _ & [Hk' | [Hn | Ht']])
         | (f' & _ & Hf' & _ & E & Hl & He & _)]; try congruence.
    rewrite Hf in Hf'. injection Hf' as <-.
    rewrite (since_app _ _ _ Hl), E, He. unfold single_flushed, now_of. simpl.
    rewrite Hc. do 5 (split; [reflexivity|]).
    intros now Hs. rewrite !Hs by lia. split; reflexivity.
Qed.

(** The overdue test engines.  On [drift_clock] the readings are 1000,
    7000, 13000, ...: creation and collapse take the first three and leave
    [nextExec] = 18000; the retention disjunct reads 19000 and holds; the
    flush writes the next reading, 25000, into [lastExec] and the one
    after, 31000, plus 5000 into [nextExec]; the entry is gone.  On
    [jump_clock] a forced pass leaves the watermarks at 7000 and 12000. *)
Lemma C5_flush_postcondition_witness :
  (let bc := fst (keyed_overdue drift_clock) in
   let w := snd (keyed_overdue drift_clock) in
   let e := Keyed.doProcess_entry false "a" (Some 10) bc w in
   Keyed.KeyExists bc "a" = true /\
   fst (Keyed.timeCondition false bc w) = true /\
   since w (snd e) = [("a", Some 10)] /\ ext (snd e) = 11 /\
   Keyed.lastExec (fst e) = 25000 /\ Keyed.nextExec (fst e) = 36000 /\
   Keyed.Values (fst e) !! "a" = None)
  /\
  (let bc := fst (keyed_overdue jump_clock) in
   let w := snd (keyed_overdue jump_clock) in
   let s' := Keyed.doProcess true ["a"] bc w in
   steady 7000 w /\
   ("a", Some 10) ∈ since w (snd s') /\
   Keyed.Values (fst s') !! "a" = None /\
   Keyed.lastExec (fst s') = 7000 /\ Keyed.nextExec (fst s') = 12000)
  /\
  (let bc := fst (single_overdue drift_clock) in
   let w := snd (single_overdue drift_clock) in
   let e := SingleSlot.doProcess bc w in
   SingleSlot.Value bc <> None /\
   fst (SingleSlot.timeCondition bc w) = true /\
   since w (snd e) = [Some 10] /\ ext (snd e) = 11 /\
   SingleSlot.lastExec (fst e) = 25000 /\ SingleSlot.nextExec (fst e) = 36000 /\
   SingleSlot.Value (fst e) = None).
Proof.
  assert (Hk : steady 7000 (snd (keyed_overdue jump_clock)))
    by (apply jump_clock_steady; [reflexivity | vm_compute; lia]).
  split; [|split]; cbv zeta.
  - split; [reflexivity|]. split; [reflexivity|].
    pose proof (proj1 C5_flush_postcondition Z Z false "a" (Some 10)
                  (fst (keyed_overdue drift_clock)) (snd (keyed_overdue drift_clock))
                  test_callback eq_refl eq_refl eq_refl)
      as (H1 & H2 & H3 & H4 & H5 & _).
    split; [exact H1|]. split; [exact H2|]. split; [exact H3|]. split; [exact H4|].
    rewrite H5. apply lookup_delete_eq.
  - split; [exact Hk|].
    pose proof (proj1 (proj2 C5_flush_postcondition) Z Z true ["a"]
                  (fst (keyed_overdue jump_clock)) (snd (keyed_overdue jump_clock))
                  7000 Hk)
      as (H1 & H2).
    assert (Hin : ("a", Some 10) ∈
                  since (snd (keyed_overdue jump_clock))
                    (snd (Keyed.doProcess true ["a"]
                            (fst (keyed_overdue jump_clock))
                            (snd (keyed_overdue jump_clock)))))
      by (vm_compute; left).
    split; [exact Hin|]. split; [apply (H1 "a" (Some 10) Hin)|].
    apply H2. vm_compute. discriminate.
  - split; [discriminate|]. split; [reflexivity|].
    pose proof (proj2 (proj2 C5_flush_postcondition) Z Z
                  (fst (single_overdue drift_clock)) (snd (single_overdue drift_clock))
                  test_callback)
      as H.
    destruct H as (H1 & H2 & H3 & H4 & H5 & _);
      [discriminate | reflexivity | reflexivity |].
    split; [exact H1|]. split; [exact H2|]. split; [exact H3|]. split; [exact H4|].
    exact H5.
Defined.

(** C6 — [Collapse] is unconditional and total.  In both engines a call of
    [Collapse] returns for every engine state, every key and every payload
    (the operation has no failure result), whether or not the key is
    present and whether or not the engine was cancelled; it sets [nextExec]
    to the instant read from the clock plus [RetentionDuration]; and when
    the key is absent (the slot empty) the payload is stored.  No callback
    is invoked. *)
Theorem C6_collapse_unconditional :
  (forall (payload Ext : Type) (key : string) (value : iface payload)
          (bc : Keyed.BatchCollapse payload Ext)
          (w : World Ext (string * iface payload)),
      let s' := Keyed.Collapse key value bc w in
      Keyed.nextExec (fst s') =
        Time_Add (now_of w) (Keyed.RetentionDuration (Keyed.conf bc)) /\
      (Keyed.Values bc !! key = None ->
       Keyed.Values (fst s') !! key = Some value) /\
      Keyed.IsCanceled (fst s') = Keyed.IsCanceled bc /\
      calls (snd s') = calls w)
  /\
  (forall (payload Ext : Type) (value : iface payload)
          (bc : SingleSlot.BatchCollapse payload Ext)
          (w : World Ext (iface payload)),
      let s' := SingleSlot.Collapse value bc w in
      SingleSlot.nextExec (fst s') =
        Time_Add (now_of w) (SingleSlot.RetentionDuration (SingleSlot.conf bc)) /\
      (SingleSlot.Value bc = None -> SingleSlot.Value (fst s') = value) /\
      SingleSlot.IsCanceled (fst s') = SingleSlot.IsCanceled bc /\
      calls (snd s') = calls w).
Proof.
  split.
  - intros payload Ext key value bc w. cbv zeta. rewrite keyed_Collapse_run.
    unfold Time_Add, now_of. simpl.
    split; [destruct (Keyed.KeyExists bc key); reflexivity|].
    split.
    + intros Hk. apply keyed_KeyExists_false in Hk. rewrite Hk. simpl.
      apply lookup_insert_eq.
    + split; [destruct (Keyed.KeyExists bc key); reflexivity | reflexivity].
  - intros payload Ext value bc w. cbv zeta. rewrite single_Collapse_run.
    unfold Time_Add, now_of. simpl.
    split; [destruct (SingleSlot.notNil (SingleSlot.Value bc)); reflexivity|].
    split.
    + intros Hk. rewrite Hk. reflexivity.
    + split; [destruct (SingleSlot.notNil (SingleSlot.Value bc)); reflexivity | reflexivity].
Qed.

(** After [Cancel], on an engine whose clock advances: key ["a"] is absent
    and [Collapse] stores 10 under it; the empty slot takes 10. *)
Lemma C6_collapse_unconditional_witness :
  (Keyed.IsCanceled (fst keyed_canceled) = true /\
   Keyed.Values (fst keyed_canceled) !! "a" = None /\
   Keyed.Values
     (fst (Keyed.Collapse "a" (Some 10) (fst keyed_canceled) (snd keyed_canceled)))
     !! "a" = Some (Some 10))
  /\
  (SingleSlot.IsCanceled (fst single_canceled) = true /\
   SingleSlot.Value (fst single_canceled) = None /\
   SingleSlot.Value
     (fst (SingleSlot.Collapse (Some 10) (fst single_canceled) (snd single_canceled)))
     = Some 10).
Proof.
  split.
  - split; [reflexivity|]. split; [reflexivity|].
    apply (proj1 C6_collapse_unconditional Z Z "a" (Some 10)
             (fst keyed_canceled) (snd keyed_canceled)).
    reflexivity.
  - split; [reflexivity|]. split; [reflexivity|].
    apply (proj2 C6_collapse_unconditional Z Z (Some 10)
             (fst single_canceled) (snd single_canceled)).
    reflexivity.
Defined.

(** C7 — Nil [ExecuteFunc].  [CreateBatchCollapse] returns an engine for a
    configuration whose [ExecuteFunc] is nil: empty, not cancelled, with
    the configuration as given.  With a nil [ExecuteFunc], along every
    sequence of operations (collapses, turns of the driver loop, cancels)
    the callback trace and the user state stay as they were, and every
    pending entry stays in the store with its value. *)
Theorem C7_nil_executeFunc :
  (forall (payload Ext : Type) (c : Keyed.Config payload Ext)
          (w : World Ext (string * iface payload)),
      Keyed.ExecuteFunc c = None ->
      let s := Keyed.CreateBatchCollapse c w in
      Keyed.Values (fst s) = ∅ /\ Keyed.conf (fst s) = c /\
      Keyed.IsCanceled (fst s) = false /\ calls (snd s) = calls w)
  /\
  (forall (payload Ext : Type) (s : Keyed.system payload Ext)
          (ops : list (Keyed.op payload)),
      Keyed.ExecuteFunc (Keyed.conf (fst s)) = None ->
      let s' := Keyed.run ops s in
      since (snd s) (snd s') = [] /\
      ext (snd s') = ext (snd s) /\
      forall k v, Keyed.Values (fst s) !! k = Some v ->
                  Keyed.Values (fst s') !! k = Some v)
  /\
  (forall (payload Ext : Type) (c : SingleSlot.Config payload Ext)
          (w : World Ext (iface payload)),
      SingleSlot.ExecuteFunc c = None ->
      let s := SingleSlot.CreateBatchCollapse c w in
      SingleSlot.Value (fst s) = None /\ SingleSlot.conf (fst s) = c /\
      SingleSlot.IsCanceled (fst s) = false /\ calls (snd s) = calls w)
  /\
  (forall (payload Ext : Type) (s : SingleSlot.system payload Ext)
          (ops : list (SingleSlot.op payload)),
      SingleSlot.ExecuteFunc (SingleSlot.conf (fst s)) = None ->
      let s' := SingleSlot.run ops s in
      since (snd s) (snd s') = [] /\
      ext (snd s') = ext (snd s) /\
      (SingleSlot.Value (fst s) <> None ->
       SingleSlot.Value (fst s') = SingleSlot.Value (fst s))).
Proof.
  split; [|split; [|split]].
  - intros payload Ext c w _. cbv zeta. repeat split.
  - intros payload Ext s ops Hf. cbv zeta.
    destruct (keyed_run_nil ops s Hf) as (H1 & H2 & H3).
    split; [apply since_same_calls; assumption | auto].
  - intros payload Ext c w _. cbv zeta. repeat split.
  - intros payload Ext s ops Hf. cbv zeta.
    destruct (single_run_nil ops s Hf) as (H1 & H2 & H3).
    split; [apply since_same_calls; assumption | auto].
Qed.

(** With a nil callback, the pending 10 survives a turn of the loop, two
    cancels and further collapses, and nothing is delivered. *)
Lemma C7_nil_executeFunc_witness :
  (Keyed.ExecuteFunc (Keyed.conf (fst (keyed_pending None))) = None /\
   Keyed.Values (fst (keyed_pending None)) !! "a" = Some (Some 10) /\
   let s' := Keyed.run [Keyed.OpTurn ["a"]; Keyed.OpCancel ["a"];
                        Keyed.OpCollapse "a" (Some 20); Keyed.OpCancel ["a"]]
               (keyed_pending None) in
   since (snd (keyed_pending None)) (snd s') = [] /\
   Keyed.Values (fst s') !! "a" = Some (Some 10))
  /\
  (SingleSlot.ExecuteFunc (SingleSlot.conf (fst (single_pending None))) = None /\
   SingleSlot.Value (fst (single_pending None)) <> None /\
   let s' := SingleSlot.run [SingleSlot.OpTurn; SingleSlot.OpCancel;
                             SingleSlot.OpCollapse (Some 20); SingleSlot.OpCancel]
               (single_pending None) in
   since (snd (single_pending None)) (snd s') = [] /\
   SingleSlot.Value (fst s') = SingleSlot.Value (fst (single_pending None))).
Proof.
  split.
  - split; [reflexivity|]. split; [reflexivity|].
    pose proof (proj1 (proj2 C7_nil_executeFunc) Z Z (keyed_pending None)
                  [Keyed.OpTurn ["a"]; Keyed.OpCancel ["a"];
                   Keyed.OpCollapse "a" (Some 20); Keyed.OpCancel ["a"]]
                  eq_refl) as (H1 & _ & H3).
    split; [exact H1 | apply H3; reflexivity].
  - split; [reflexivity|]. split; [discriminate|].
    pose proof (proj2 (proj2 (proj2 C7_nil_executeFunc)) Z Z (single_pending None)
                  [SingleSlot.OpTurn; SingleSlot.OpCancel;
                   SingleSlot.OpCollapse (Some 20); SingleSlot.OpCancel]
                  eq_refl) as (H1 & _ & H3).
    split; [exact H1 | apply H3; discriminate].
Defined.

(** C8 — [Cancel] on an empty engine.  When nothing is pending, [Cancel]
    invokes the callback zero times (the trace and the user state are
    unchanged) and leaves [IsCanceled] true. *)
Theorem C8_cancel_on_empty :
  (forall (payload Ext : Type) (order : list string)
          (bc : Keyed.BatchCollapse payload Ext)
          (w : World Ext (string * iface payload)),
      Keyed.Values bc = ∅ ->
      let s' := Keyed.Cancel order bc w in
      since w (snd s') = [] /\ ext (snd s') = ext w /\
      Keyed.IsCanceled (fst s') = true)
  /\
  (forall (payload Ext : Type) (bc : SingleSlot.BatchCollapse payload Ext)
          (w : World Ext (iface payload)),
      SingleSlot.Value bc = None ->
      let s' := SingleSlot.Cancel bc w in
      since w (snd s') = [] /\ ext (snd s') = ext w /\
      SingleSlot.IsCanceled (fst s') = true).
Proof.
  split.
  - intros payload Ext order bc w He. cbv zeta.
    rewrite keyed_Cancel_run, keyed_range_empty by exact He. simpl.
    split; [apply since_refl | auto].
  - intros payload Ext bc w He. cbv zeta.
    rewrite single_Cancel_run, He. simpl.
    split; [apply since_refl | auto].
Qed.

(** The freshly created engines of the tests are empty; [Cancel] on them
    calls nothing and raises the flag ([TestCancel__WithoutExec]). *)
Lemma C8_cancel_on_empty_witness :
  (Keyed.Values (fst (keyed_fresh (Some test_callback))) = ∅ /\
   let s' := Keyed.Cancel [] (fst (keyed_fresh (Some test_callback)))
               (snd (keyed_fresh (Some test_callback))) in
   since (snd (keyed_fresh (Some test_callback))) (snd s') = [] /\
   ext (snd s') = 10 /\ Keyed.IsCanceled (fst s') = true)
  /\
  (SingleSlot.Value (fst (single_fresh (Some test_callback))) = None /\
   let s' := SingleSlot.Cancel (fst (single_fresh (Some test_callback)))
               (snd (single_fresh (Some test_callback))) in
   since (snd (single_fresh (Some test_callback))) (snd s') = [] /\
   ext (snd s') = 10 /\ SingleSlot.IsCanceled (fst s') = true).
Proof.
  split.
  - split; [reflexivity|].
    apply (proj1 C8_cancel_on_empty Z Z [] (fst (keyed_fresh (Some test_callback)))
             (snd (keyed_fresh (Some test_callback)))).
    reflexivity.
  - split; [reflexivity|].
    apply (proj2 C8_cancel_on_empty Z Z (fst (single_fresh (Some test_callback)))
             (snd (single_fresh (Some test_callback)))).
    reflexivity.
Defined.

(** C9 — Monotonicity of the cancelled flag.  In both engines:
    [IsCanceled] is false after construction and after any operations that
    are not [Cancel]; it is true after [Cancel]; and once true it is true
    after every further sequence of operations. *)
Theorem C9_isCanceled_monotonic :
  (forall (payload Ext : Type),
      (forall (c : Keyed.Config payload Ext) (w : World Ext (string * iface payload))
              (ops : list (Keyed.op payload)),
          forallb keyed_not_cancel ops = true ->
          Keyed.IsCanceled (fst (Keyed.run ops (Keyed.CreateBatchCollapse c w)))
          = false) /\
      (forall (order : list string) (s : Keyed.system payload Ext),
          Keyed.IsCanceled (fst (Keyed.step (Keyed.OpCancel order) s)) = true) /\
      (forall (ops : list (Keyed.op payload)) (s : Keyed.system payload Ext),
          Keyed.IsCanceled (fst s) = true ->
          Keyed.IsCanceled (fst (Keyed.run ops s)) = true))
  /\
  (forall (payload Ext : Type),
      (forall (c : SingleSlot.Config payload Ext) (w : World Ext (iface payload))
              (ops : list (SingleSlot.op payload)),
          forallb single_not_cancel ops = true ->
          SingleSlot.IsCanceled
            (fst (SingleSlot.run ops (SingleSlot.CreateBatchCollapse c w)))
          = false) /\
      (forall (s : SingleSlot.system payload Ext),
          SingleSlot.IsCanceled (fst (SingleSlot.step SingleSlot.OpCancel s)) = true) /\
      (forall (ops : list (SingleSlot.op payload)) (s : SingleSlot.system payload Ext),
          SingleSlot.IsCanceled (fst s) = true ->
          SingleSlot.IsCanceled (fst (SingleSlot.run ops s)) = true)).
Proof.
  split; intros payload Ext; (split; [|split]).
  - intros c w ops Hops.
    apply (run_invariant Keyed.step keyed_not_cancel
             (fun s => Keyed.IsCanceled (fst s) = false)); [|assumption|reflexivity].
    intros o s Ho Hs. rewrite keyed_step_IsCanceled; assumption.
  - intros order s. rewrite keyed_step_Cancel. apply keyed_Cancel_IsCanceled.
  - intros ops s Hs.
    apply (run_invariant_all Keyed.step
             (fun s => Keyed.IsCanceled (fst s) = true)); [|assumption].
    intros o s0. apply keyed_step_IsCanceled_stays.
  - intros c w ops Hops.
    apply (run_invariant SingleSlot.step single_not_cancel
             (fun s => SingleSlot.IsCanceled (fst s) = false));
      [|assumption|reflexivity].
    intros o s Ho Hs. rewrite single_step_IsCanceled; assumption.
  - intros s. rewrite single_step_Cancel. apply single_Cancel_IsCanceled.
  - intros ops s Hs.
    apply (run_invariant_all SingleSlot.step
             (fun s => SingleSlot.IsCanceled (fst s) = true)); [|assumption].
    intros o s0. apply single_step_IsCanceled_stays.
Qed.

(** The flag of the test engines: still false after collapses and turns of
    the loop, and true after a cancel followed by more of everything. *)
Lemma C9_isCanceled_monotonic_witness :
  (Keyed.IsCanceled
     (fst (Keyed.run [Keyed.OpCollapse "a" (Some 10); Keyed.OpTurn ["a"]]
             (Keyed.CreateBatchCollapse (keyed_conf (Some test_callback))
                keyed_ticking_world))) = false /\
   Keyed.IsCanceled (fst keyed_canceled) = true /\
   Keyed.IsCanceled
     (fst (Keyed.run [Keyed.OpCollapse "a" (Some 10); Keyed.OpTurn ["a"];
                      Keyed.OpCancel ["a"]] keyed_canceled)) = true)
  /\
  (SingleSlot.IsCanceled
     (fst (SingleSlot.run [SingleSlot.OpCollapse (Some 10); SingleSlot.OpTurn]
             (SingleSlot.CreateBatchCollapse (single_conf (Some test_callback))
                single_ticking_world))) = false /\
   SingleSlot.IsCanceled (fst single_canceled) = true /\
   SingleSlot.IsCanceled
     (fst (SingleSlot.run [SingleSlot.OpCollapse (Some 10); SingleSlot.OpTurn;
                           SingleSlot.OpCancel] single_canceled)) = true).
Proof.
  split.
  - split; [|split].
    + apply (proj1 (proj1 C9_isCanceled_monotonic Z Z)). reflexivity.
    + reflexivity.
    + apply (proj2 (proj2 (proj1 C9_isCanceled_monotonic Z Z))). reflexivity.
  - split; [|split].
    + apply (proj1 (proj2 C9_isCanceled_monotonic Z Z)). reflexivity.
    + reflexivity.
    + apply (proj2 (proj2 (proj2 C9_isCanceled_monotonic Z Z))). reflexivity.
Defined.

(** C10 — Nil payloads in the single-slot engine.  The slot is empty
    exactly when [Value] is nil.  [Collapse(nil)] never changes [Value];
    on an empty slot it leaves [Value] nil and changes nothing but
    [nextExec]; a following [Collapse] of any payload puts that payload in
    the slot; and along every sequence of operations from every state, no
    invocation of the callback has a nil argument. *)
Theorem C10_single_slot_nil_payload :
  forall (payload Ext : Type),
    (forall (bc : SingleSlot.BatchCollapse payload Ext) (w : World Ext (iface payload)),
        SingleSlot.Value (fst (SingleSlot.Collapse None bc w)) = SingleSlot.Value bc) /\
    (forall (bc : SingleSlot.BatchCollapse payload Ext) (w : World Ext (iface payload)),
        SingleSlot.Value bc = None ->
        let s' := SingleSlot.Collapse None bc w in
        SingleSlot.Value (fst s') = None /\
        fst s' = SingleSlot.set_nextExec
                   (Time_Add (now_of w)
                      (SingleSlot.RetentionDuration (SingleSlot.conf bc))) bc /\
        calls (snd s') = calls w /\ ext (snd s') = ext w) /\
    (forall (s : SingleSlot.system payload Ext) (value : iface payload),
        SingleSlot.Value (fst s) = None ->
        SingleSlot.Value
          (fst (SingleSlot.run [SingleSlot.OpCollapse None;
                                SingleSlot.OpCollapse value] s)) = value) /\
    (forall (s : SingleSlot.system payload Ext) (ops : list (SingleSlot.op payload))
            (c : iface payload),
        c ∈ since (snd s) (snd (SingleSlot.run ops s)) -> c <> None).
Proof.
  intros payload Ext. split; [|split; [|split]].
  - intros bc w. rewrite single_Collapse_run. simpl.
    destruct (SingleSlot.Value bc) eqn:Hv; simpl; [assumption | reflexivity].
  - intros bc w He. cbv zeta. rewrite single_Collapse_run, He. simpl.
    unfold SingleSlot.set_Value, SingleSlot.set_nextExec, Time_Add, now_of. simpl.
    rewrite He. repeat split.
  - intros [bc w] value He. simpl in He.
    rewrite !single_run_cons, !single_step_Collapse, !single_Collapse_run. simpl.
    rewrite He. simpl. reflexivity.
  - intros s ops c Hc.
    destruct (single_run_delivers_non_nil ops s) as (l & Hl & Hall).
    rewrite (since_app _ _ _ Hl) in Hc.
    rewrite Forall_forall in Hall. apply Hall. assumption.
Qed.

(** On the fresh test engine: [Collapse(nil)] leaves the slot empty, the
    next [Collapse(10)] fills it, and the one delivery that follows is 10. *)
Lemma C10_single_slot_nil_payload_witness :
  SingleSlot.Value (fst (single_fresh (Some test_callback))) = None /\
  SingleSlot.Value
    (fst (SingleSlot.Collapse None (fst (single_fresh (Some test_callback)))
            (snd (single_fresh (Some test_callback))))) = None /\
  SingleSlot.Value
    (fst (SingleSlot.run [SingleSlot.OpCollapse None; SingleSlot.OpCollapse (Some 10)]
            (single_fresh (Some test_callback)))) = Some 10 /\
  (Some 10 ∈ since (snd (single_fresh (Some test_callback)))
               (snd (SingleSlot.run [SingleSlot.OpCollapse None;
                                     SingleSlot.OpCollapse (Some 10);
                                     SingleSlot.OpCancel]
                       (single_fresh (Some test_callback)))) /\
   Some 10 <> @None Z).
Proof.
  split; [reflexivity|]. split; [|split; [|split]].
  - apply (proj1 (proj2 (C10_single_slot_nil_payload Z Z))
             (fst (single_fresh (Some test_callback)))
             (snd (single_fresh (Some test_callback)))).
    reflexivity.
  - apply (proj1 (proj2 (proj2 (C10_single_slot_nil_payload Z Z)))). reflexivity.
  - vm_compute. left.
  - apply (proj2 (proj2 (proj2 (C10_single_slot_nil_payload Z Z)))
             (single_fresh (Some test_callback))
             [SingleSlot.OpCollapse None; SingleSlot.OpCollapse (Some 10);
              SingleSlot.OpCancel]).
    vm_compute. left.
Defined.

(** * Further properties of the code *)

Section KeyedMore.
Context {payload Ext : Type}.
Implicit Types bc : Keyed.BatchCollapse payload Ext.
Implicit Types w : World Ext (string * iface payload).
Implicit Types s : Keyed.system payload Ext.
Implicit Types key k : string.
Implicit Types value v : iface payload.
Implicit Types order : list string.

(** ** Once the context is cancelled *)





(** ** Passes inside the retention window *)

Lemma keyed_range_quiet order bc w :
  (forall i, (reads w <= i)%nat ->
             clock w i <= Keyed.nextExec bc /\
             clock w i <= Keyed.lastExec bc + Keyed.MaxDuration (Keyed.conf bc)) ->
  fst (Keyed.range_Values false order bc w) = bc /\
  calls (snd (Keyed.range_Values false order bc w)) = calls w.
Proof.
  revert w. induction order as [|key rest IH]; intros w Hq; [simpl; auto|].
  rewrite keyed_range_cons.
  destruct (Keyed.Values bc !! key) as [value|]; [|apply IH; assumption].
  destruct (keyed_entry_cases false key value bc w)
    as [(E & Hl & _ & Hc & _) | (f & _ & _ & Ht & _)].
  - pose proof (keyed_entry_reads false key value bc w) as Hr.
    rewrite E.
    destruct (IH (snd (Keyed.doProcess_entry false key value bc w))) as [I1 I2].
    { intros i Hi. rewrite Hc. apply Hq. lia. }
    split; [assumption | congruence].
  - rewrite keyed_timeCondition_value in Ht. simpl in Ht.
    destruct (Hq (reads w)) as [Q1 _]; [lia|].
    destruct (Hq (S (reads w))) as [_ Q2]; [lia|].
    apply orb_true_iff in Ht as [Ht | Ht]; apply Z.ltb_lt in Ht; lia.
Qed.
(** With non-negative durations and a clock that stands still, the state
    a flush leaves is inside its own retention window. *)
Lemma keyed_range_at_most_one order bc w now :
  steady now w ->
  0 <= Keyed.RetentionDuration (Keyed.conf bc) ->
  0 <= Keyed.MaxDuration (Keyed.conf bc) ->
  exists l, calls (snd (Keyed.range_Values false order bc w)) = calls w ++ l /\
            (length l <= 1)%nat.
Proof.
  revert w. induction order as [|key rest IH]; intros w Hs Hrd Hmd.
  - exists []. simpl. split; [symmetry; apply app_nil_r | lia].
  - rewrite keyed_range_cons.
    destruct (Keyed.Values bc !! key) as [value|]; [|apply IH; assumption].
    pose proof (keyed_entry_reads false key value bc w) as Hr.
    pose proof (keyed_timeCondition_world false bc w) as (_ & _ & _ & Hrc).
    destruct (keyed_entry_cases false key value bc w)
      as [(E & Hl & _ & Hc & _) | (f & _ & _ & _ & E & Hl & _ & Hc)].
    + rewrite E. rewrite <- Hl. apply IH; [|assumption|assumption].
      apply (steady_clock now w); assumption.
    + set (e := Keyed.doProcess_entry false key value bc w) in *.
      set (wc := snd (Keyed.timeCondition false bc w)) in *. clearbody wc.
      destruct (keyed_range_quiet rest (fst e) (snd e)) as [_ Q].
      { intros i Hi. rewrite Hc, E. unfold keyed_flushed, Time_Add. simpl.
        rewrite !Hs by lia. lia. }
      exists [(key, value)]. rewrite Q, Hl. split; [reflexivity | simpl; lia].
Qed.

(** ** A pass after the ceiling *)

Lemma keyed_entry_ceiling key value bc w f :
  Keyed.Values bc !! key = Some value ->
  Keyed.ExecuteFunc (Keyed.conf bc) = Some f ->
  Keyed.lastExec bc + Keyed.MaxDuration (Keyed.conf bc) < now_of w ->
  now_of w <= clock w (S (reads w)) ->
  let e := Keyed.doProcess_entry false key value bc w in
  calls (snd e) = calls w ++ [(key, value)] /\
  Keyed.Values (fst e) !! key = None.
Proof.
  intros Hv Hf Hlt Hmono. cbv zeta. unfold now_of in *.
  destruct (keyed_entry_cases false key value bc w)
    as [(_ & _ & _ & _ & [Hk | [Hn | Ht]]) | (f' & _ & _ & _ & E & Hl & _)].
  - apply keyed_KeyExists_false in Hk. congruence.
  - congruence.
  - rewrite keyed_timeCondition_value in Ht. simpl in Ht.
    apply orb_false_iff in Ht as [_ Ht]. apply Z.ltb_ge in Ht. lia.
  - split; [assumption|]. rewrite E. unfold keyed_flushed. simpl.
    apply lookup_delete_eq.
Qed.

(** ** Forced passes, exactly *)

Lemma keyed_range_forced_order order bc w f :
  Keyed.ExecuteFunc (Keyed.conf bc) = Some f ->
  NoDup order ->
  (forall k, k ∈ order -> is_Some (Keyed.Values bc !! k)) ->
  exists l, calls (snd (Keyed.range_Values true order bc w)) = calls w ++ l /\
            fst <$> l = order.
Proof.
  revert bc w. induction order as [|key rest IH]; intros bc w Hf Hnd Hall.
  - exists []. simpl. split; [symmetry; apply app_nil_r | reflexivity].
  - apply NoDup_cons in Hnd as [Hnot Hnd].
    rewrite keyed_range_cons.
    destruct (Hall key) as [value Hv]; [left|]. rewrite Hv.
    destruct (keyed_entry_cases true key value bc w)
      as [(_ & _ & _ & _ & [Hk | [Hn | Ht]]) | (f' & _ & _ & _ & E & Hl & _)].
    + apply keyed_KeyExists_false in Hk. congruence.
    + congruence.
    + rewrite keyed_timeCondition_forced in Ht. discriminate.
    + set (e := Keyed.doProcess_entry true key value bc w) in *.
      destruct (IH (fst e) (snd e)) as (l & Hl' & Hfst).
      * rewrite E. unfold keyed_flushed. simpl. assumption.
      * assumption.
      * intros k Hk. rewrite E. unfold keyed_flushed. simpl.
        rewrite lookup_delete_ne; [apply Hall; right; assumption|].
        intros ->. contradiction.
      * exists ((key, value) :: l). rewrite Hl', Hl, <- app_assoc.
        split; [reflexivity|]. rewrite fmap_cons, Hfst. reflexivity.
Qed.

Lemma keyed_order_of_dom bc order k :
  Keyed.order_of bc order -> (k ∈ order <-> is_Some (Keyed.Values bc !! k)).
Proof.
  intros [_ Hord]. rewrite <- elem_of_dom, <- Hord, elem_of_list_to_set.
  reflexivity.
Qed.

Lemma keyed_Cancel_exact order bc w f :
  Keyed.ExecuteFunc (Keyed.conf bc) = Some f ->
  Keyed.order_of bc order ->
  let s' := Keyed.Cancel order bc w in
  Keyed.Values (fst s') = ∅ /\
  fst <$> since w (snd s') = order /\
  since w (snd s') ≡ₚ map_to_list (Keyed.Values bc).
Proof.
  intros Hf Hord. cbv zeta. rewrite keyed_Cancel_run. simpl.
  set (bc1 := Keyed.set_ctxDone true bc).
  assert (Hempty : Keyed.Values (fst (Keyed.range_Values true order bc1 w)) = ∅).
  { apply map_eq. intros k. rewrite lookup_empty.
    destruct (decide (k ∈ order)) as [Hin | Hnin].
    - apply (keyed_range_forced_gone order bc1 w f); assumption.
    - apply keyed_range_absent. simpl.
      destruct (Keyed.Values bc !! k) eqn:Hk; [|reflexivity].
      exfalso. apply Hnin. apply (keyed_order_of_dom bc); eauto. }
  split; [assumption|]. split.
  - destruct (keyed_range_forced_order order bc1 w f) as (l & Hl & Hfst).
    + assumption.
    + apply Hord.
    + intros k Hk. apply (keyed_order_of_dom bc order k Hord). assumption.
    + rewrite (since_app _ _ _ Hl). assumption.
  - pose proof (keyed_range_conservation true order bc1 w) as Hc.
    cbv zeta in Hc. rewrite Hempty, map_to_list_empty, app_nil_r in Hc.
    exact Hc.
Qed.

(** ** Collapses of different keys *)

Lemma keyed_Collapse_Values key value bc w :
  Keyed.Values (fst (Keyed.Collapse key value bc w)) =
    match Keyed.Values bc !! key with
    | Some _ => Keyed.Values bc
    | None => <[key := value]> (Keyed.Values bc)
    end.
Proof.
  rewrite keyed_Collapse_run. simpl. unfold Keyed.KeyExists.
  destruct (Keyed.Values bc !! key); reflexivity.
Qed.

Lemma keyed_Collapse_commute a va b vb s :
  a <> b ->
  Keyed.Values (fst (Keyed.run [Keyed.OpCollapse a va; Keyed.OpCollapse b vb] s)) =
  Keyed.Values (fst (Keyed.run [Keyed.OpCollapse b vb; Keyed.OpCollapse a va] s)).
Proof.
  intros Hne. destruct s as [bc w].
  rewrite !keyed_run_cons, !keyed_step_Collapse.
  change (Keyed.run [] ?x) with x.
  rewrite !keyed_Collapse_Values. simpl fst.
  destruct (Keyed.Values bc !! a) as [xa|] eqn:Ha;
    destruct (Keyed.Values bc !! b) as [xb|] eqn:Hb;
    rewrite ?Ha, ?Hb, ?lookup_insert_ne, ?Ha, ?Hb by congruence;
    try reflexivity.
  apply insert_insert_ne. congruence.
Qed.
(** ** Where the watermarks come from *)

Lemma keyed_entry_readings force key value bc w :
  (exists i j, (i < reads w)%nat /\ (j < reads w)%nat /\
     Keyed.lastExec bc = clock w i /\
     Keyed.nextExec bc = clock w j + Keyed.RetentionDuration (Keyed.conf bc)) ->
  let e := Keyed.doProcess_entry force key value bc w in
  exists i j, (i < reads (snd e))%nat /\ (j < reads (snd e))%nat /\
    Keyed.lastExec (fst e) = clock w i /\
    Keyed.nextExec (fst e) = clock w j + Keyed.RetentionDuration (Keyed.conf bc).
Proof.
  intros (i & j & Hi & Hj & H1 & H2). cbv zeta.
  pose proof (keyed_entry_reads force key value bc w) as Hr.
  pose proof (keyed_timeCondition_world force bc w) as (Hc & _ & _ & Hrc).
  unfold Keyed.doProcess_entry in *.
  destruct (Keyed.KeyExists bc key); [|exists i, j; simpl in *; auto with lia].
  destruct (Keyed.ExecuteFunc (Keyed.conf bc)); [|exists i, j; simpl in *; auto with lia].
  rewrite bind_run in *.
  set (wc := snd (Keyed.timeCondition force bc w)) in *.
  destruct (fst (Keyed.timeCondition force bc w)).
  - exists (reads wc), (S (reads wc)).
    unfold bind, invoke, time_Now, ret, Time_Add. simpl. rewrite Hc.
    repeat split; lia.
  - exists i, j. unfold ret in *. simpl in *. repeat split; auto; lia.
Qed.

Lemma keyed_range_readings force order bc w :
  (exists i j, (i < reads w)%nat /\ (j < reads w)%nat /\
     Keyed.lastExec bc = clock w i /\
     Keyed.nextExec bc = clock w j + Keyed.RetentionDuration (Keyed.conf bc)) ->
  let s' := Keyed.range_Values force order bc w in
  exists i j, (i < reads (snd s'))%nat /\ (j < reads (snd s'))%nat /\
    Keyed.lastExec (fst s') = clock w i /\
    Keyed.nextExec (fst s') = clock w j + Keyed.RetentionDuration (Keyed.conf bc).
Proof.
  revert bc w. induction order as [|key rest IH]; intros bc w H; [exact H|].
  cbv zeta. rewrite keyed_range_cons.
  destruct (Keyed.Values bc !! key) as [value|]; [|apply IH; assumption].
  pose proof (keyed_entry_readings force key value bc w H) as He. cbv zeta in He.
  set (e := Keyed.doProcess_entry force key value bc w) in *.
  assert (Hc : clock (snd e) = clock w).
  { destruct (keyed_entry_cases force key value bc w)
      as [(_ & _ & _ & Hc & _) | (f & _ & _ & _ & _ & _ & _ & Hc)]; exact Hc. }
  assert (Hf : Keyed.conf (fst e) = Keyed.conf bc).
  { destruct (keyed_entry_cases force key value bc w)
      as [(E & _) | (f & _ & _ & _ & E & _)]; fold e in E; rewrite E; reflexivity. }
  specialize (IH (fst e) (snd e)). cbv zeta in IH.
  rewrite Hc, Hf in IH. apply IH. exact He.
Qed.

Lemma keyed_created_readings (c : Keyed.Config payload Ext) w ops :
  let s := Keyed.run ops (Keyed.CreateBatchCollapse c w) in
  Keyed.conf (fst s) = c /\ clock (snd s) = clock w /\
  exists i j, (i < reads (snd s))%nat /\ (j < reads (snd s))%nat /\
    Keyed.lastExec (fst s) = clock w i /\
    Keyed.nextExec (fst s) = clock w j + Keyed.RetentionDuration c.
Proof.
  cbv zeta.
  apply (run_invariant_all Keyed.step
           (fun s => Keyed.conf (fst s) = c /\ clock (snd s) = clock w /\
              exists i j, (i < reads (snd s))%nat /\ (j < reads (snd s))%nat /\
                Keyed.lastExec (fst s) = clock w i /\
                Keyed.nextExec (fst s) = clock w j + Keyed.RetentionDuration c)).
  - intros o [bc w0] (Hf & Hc & Hex). simpl in Hf, Hc, Hex.
    destruct (keyed_step_frame o (bc, w0)) as (G1 & G2 & _).
    simpl in G1, G2. rewrite G1, G2. split; [assumption|]. split; [assumption|].
    rewrite <- Hc, <- Hf in Hex |- *.
    destruct o as [key value|order|order].
    + rewrite keyed_step_Collapse, keyed_Collapse_run. simpl.
      destruct Hex as (i & j & Hi & Hj & H1 & H2).
      exists i, (reads w0). unfold Time_Add.
      destruct (Keyed.KeyExists bc key); simpl; repeat split; auto; lia.
    + rewrite keyed_step_Turn. simpl fst; simpl snd.
      destruct (Keyed.ctxDone bc); [exact Hex|].
      apply keyed_range_readings. exact Hex.
    + rewrite keyed_step_Cancel, keyed_Cancel_run. simpl fst; simpl snd.
      apply (keyed_range_readings true order (Keyed.set_ctxDone true bc) w0).
      exact Hex.
  - simpl. split; [reflexivity|]. split; [reflexivity|].
    exists (reads w), (S (reads w)). unfold Time_Add. repeat split; lia.
Qed.
End KeyedMore.

Section SingleMore.
Context {payload Ext : Type}.
Implicit Types bc : SingleSlot.BatchCollapse payload Ext.
Implicit Types w : World Ext (iface payload).
Implicit Types s : SingleSlot.system payload Ext.
Implicit Types value v : iface payload.

(** ** Once the context is cancelled *)





(** ** [doProcess] inside the retention window and after the ceiling *)

Lemma single_doProcess_quiet bc w :
  clock w (reads w) <= SingleSlot.nextExec bc ->
  clock w (S (reads w)) <=
    SingleSlot.lastExec bc + SingleSlot.MaxDuration (SingleSlot.conf bc) ->
  fst (SingleSlot.doProcess bc w) = bc /\
  calls (snd (SingleSlot.doProcess bc w)) = calls w.
Proof.
  intros Q1 Q2.
  destruct (single_doProcess_cases bc w)
    as [(E & Hl & _) | (f & _ & _ & Ht & _)]; [auto|].
  rewrite single_timeCondition_value in Ht.
  apply orb_true_iff in Ht as [Ht | Ht]; apply Z.ltb_lt in Ht; lia.
Qed.

Lemma single_doProcess_ceiling bc w f x :
  SingleSlot.Value bc = Some x ->
  SingleSlot.ExecuteFunc (SingleSlot.conf bc) = Some f ->
  SingleSlot.lastExec bc + SingleSlot.MaxDuration (SingleSlot.conf bc) < now_of w ->
  now_of w <= clock w (S (reads w)) ->
  calls (snd (SingleSlot.doProcess bc w)) = calls w ++ [Some x] /\
  SingleSlot.Value (fst (SingleSlot.doProcess bc w)) = None.
Proof.
  intros Hv Hf Hlt Hmono. unfold now_of in *.
  destruct (single_doProcess_cases bc w)
    as [(_ & _ & _ & _ & [Hk | [Hn | Ht]]) | (f' & _ & _ & _ & E & Hl & _)].
  - congruence.
  - congruence.
  - rewrite single_timeCondition_value in Ht.
    apply orb_false_iff in Ht as [_ Ht]. apply Z.ltb_ge in Ht. lia.
  - rewrite Hl, E, Hv. split; reflexivity.
Qed.

(** ** Where the watermarks come from *)

Lemma single_doProcess_readings bc w :
  (exists i j, (i < reads w)%nat /\ (j < reads w)%nat /\
     SingleSlot.lastExec bc = clock w i /\
     SingleSlot.nextExec bc =
       clock w j + SingleSlot.RetentionDuration (SingleSlot.conf bc)) ->
  let e := SingleSlot.doProcess bc w in
  exists i j, (i < reads (snd e))%nat /\ (j < reads (snd e))%nat /\
    SingleSlot.lastExec (fst e) = clock w i /\
    SingleSlot.nextExec (fst e) =
      clock w j + SingleSlot.RetentionDuration (SingleSlot.conf bc).
Proof.
  intros (i & j & Hi & Hj & H1 & H2). cbv zeta.
  pose proof (single_timeCondition_world bc w) as (Hc & _ & _ & Hrc).
  unfold SingleSlot.doProcess in *.
  destruct (SingleSlot.notNil (SingleSlot.Value bc));
    [|exists i, j; simpl in *; auto with lia].
  destruct (SingleSlot.ExecuteFunc (SingleSlot.conf bc));
    [|exists i, j; simpl in *; auto with lia].
  rewrite bind_run in *.
  set (wc := snd (SingleSlot.timeCondition bc w)) in *.
  destruct (fst (SingleSlot.timeCondition bc w)).
  - exists (reads wc), (S (reads wc)).
    unfold bind, invoke, time_Now, ret, Time_Add. simpl. rewrite Hc.
    repeat split; lia.
  - exists i, j. unfold ret in *. simpl in *. repeat split; auto; lia.
Qed.

Lemma single_created_readings (c : SingleSlot.Config payload Ext) w ops :
  let s := SingleSlot.run ops (SingleSlot.CreateBatchCollapse c w) in
  SingleSlot.conf (fst s) = c /\ clock (snd s) = clock w /\
  exists i j, (i < reads (snd s))%nat /\ (j < reads (snd s))%nat /\
    SingleSlot.lastExec (fst s) = clock w i /\
    SingleSlot.nextExec (fst s) = clock w j + SingleSlot.RetentionDuration c.
Proof.
  cbv zeta.
  apply (run_invariant_all SingleSlot.step
           (fun s => SingleSlot.conf (fst s) = c /\ clock (snd s) = clock w /\
              exists i j, (i < reads (snd s))%nat /\ (j < reads (snd s))%nat /\
                SingleSlot.lastExec (fst s) = clock w i /\
                SingleSlot.nextExec (fst s) =
                  clock w j + SingleSlot.RetentionDuration c)).
  - intros o [bc w0] (Hf & Hc & Hex). simpl in Hf, Hc, Hex.
    destruct (single_step_frame o (bc, w0)) as (G1 & G2 & _).
    simpl in G1, G2. rewrite G1, G2. split; [assumption|]. split; [assumption|].
    rewrite <- Hc, <- Hf in Hex |- *.
    destruct o as [value| |].
    + rewrite single_step_Collapse, single_Collapse_run. simpl.
      destruct Hex as (i & j & Hi & Hj & H1 & H2).
      exists i, (reads w0). unfold Time_Add.
      destruct (SingleSlot.notNil (SingleSlot.Value bc)); simpl;
        repeat split; auto; lia.
    + rewrite single_step_Turn. simpl fst; simpl snd.
      destruct (SingleSlot.ctxDone bc); [exact Hex|].
      apply single_doProcess_readings. exact Hex.
    + rewrite single_step_Cancel, single_Cancel_run. simpl fst; simpl snd.
      destruct Hex as (i & j & Hi & Hj & H1 & H2). exists i, j.
      destruct (SingleSlot.Value bc);
        [destruct (SingleSlot.ExecuteFunc (SingleSlot.conf bc))|];
        simpl; repeat split; auto.
  - simpl. split; [reflexivity|]. split; [reflexivity|].
    exists (reads w), (S (reads w)). unfold Time_Add. repeat split; lia.
Qed.

(** ** Accounting on the timer path *)

Lemma single_step_accounting o s :
  single_not_cancel o = true ->
  since (snd s) (snd (SingleSlot.step o s)) ++ slot (fst (SingleSlot.step o s))
  = slot (fst s) ++ single_accepted [o] s.
Proof.
  destruct s as [bc w]. simpl fst; simpl snd. intros Ho.
  destruct o as [value| |]; [| |discriminate].
  - rewrite single_step_Collapse, single_Collapse_run. simpl.
    rewrite since_same_calls by reflexivity. simpl. unfold slot.
    destruct (SingleSlot.Value bc) as [x|] eqn:Hv; simpl.
    + rewrite Hv. reflexivity.
    + rewrite app_nil_r. reflexivity.
  - rewrite single_step_Turn. simpl fst; simpl snd. simpl single_accepted.
    rewrite app_nil_r. destruct (SingleSlot.ctxDone bc).
    + simpl. rewrite since_refl. reflexivity.
    + destruct (single_doProcess_cases bc w)
        as [(E & Hl & _) | (f & Hv & _ & _ & E & Hl & _)].
      * rewrite (since_same_calls _ _ Hl), E. reflexivity.
      * rewrite (since_app _ _ _ Hl), E. unfold slot, single_flushed. simpl.
        destruct (SingleSlot.Value bc); [reflexivity | contradiction].
Qed.

Lemma single_accepted_cons o ops s :
  single_accepted (o :: ops) s =
  single_accepted [o] s ++ single_accepted ops (SingleSlot.step o s).
Proof. simpl. rewrite app_nil_r. reflexivity. Qed.

Lemma single_run_accounting ops s :
  forallb single_not_cancel ops = true ->
  since (snd s) (snd (SingleSlot.run ops s)) ++ slot (fst (SingleSlot.run ops s))
  = slot (fst s) ++ single_accepted ops s.
Proof.
  revert s. induction ops as [|o ops IH]; intros s Hall.
  - simpl. rewrite since_refl, app_nil_r. reflexivity.
  - simpl in Hall. apply andb_true_iff in Hall as [Ho Hall].
    rewrite single_run_cons.
    destruct (single_step_frame o s) as (_ & _ & l1 & Hl1).
    destruct (single_run_frame ops (SingleSlot.step o s)) as (_ & _ & l2 & Hl2).
    pose proof (single_step_accounting o s Ho) as H1.
    pose proof (IH (SingleSlot.step o s) Hall) as H2.
    rewrite (since_app _ _ _ Hl1) in H1. rewrite (since_app _ _ _ Hl2) in H2.
    rewrite (since_app (snd s) _ (l1 ++ l2)).
    2:{ rewrite Hl2, Hl1, app_assoc. reflexivity. }
    rewrite single_accepted_cons.
    rewrite <- app_assoc, H2, !app_assoc, H1. reflexivity.
Qed.
End SingleMore.

(** ** The shutdown goroutines *)


Lemma single_signals_done {payload Ext : Type} (sigs : list Signal)
    (s : SingleSlot.system payload Ext) :
  single_signals sigs (s, false) = (s, false).
Proof. induction sigs as [|sig sigs IH]; [reflexivity | exact IH]. Qed.

Lemma soon_clock_bound (i : nat) : soon_clock i <= 2000.
Proof. unfold soon_clock. destruct (i <? 3)%nat; lia. Qed.

Lemma far_clock_late (i : nat) : (2 <= i)%nat -> far_clock i = 100000.
Proof.
  intros H. unfold far_clock. destruct (Nat.ltb_spec i 2); [lia | reflexivity].
Qed.

Lemma drift_clock_monotone {Ext call : Type} (n : nat) (e : Ext) (l : list call) :
  monotone (mkWorld drift_clock n e l).
Proof. intros i j H. simpl. unfold drift_clock. lia. Qed.

(** * Further properties, one by one *)

(** X1 — Delivery accounting in the keyed engine.  Along every sequence of
    collapses, loop turns and cancels, from every state, the pairs
    delivered to the callback together with the pairs still pending are,
    counted with multiplicity, the pairs pending at the start together
    with the pairs that [Collapse] stored: nothing is delivered twice,
    nothing is lost, nothing is made up. *)
Theorem X1_keyed_delivery_accounting :
  forall (payload Ext : Type) (ops : list (Keyed.op payload))
         (s : Keyed.system payload Ext),
    since (snd s) (snd (Keyed.run ops s))
      ++ map_to_list (Keyed.Values (fst (Keyed.run ops s)))
    ≡ₚ map_to_list (Keyed.Values (fst s)) ++ accepted ops s.
Proof.
  intros payload Ext ops s. apply keyed_single_flush_delivery.
Qed.



(** X3 — [Collapse] re-arms the retention window.  After a [Collapse]
    that read the instant [t] from the clock, a turn of the driver loop
    all of whose readings are no later than [t + RetentionDuration] and no
    later than [lastExec + MaxDuration] delivers nothing and leaves the
    engine as the [Collapse] left it, for every key, payload and state. *)
Theorem X3_collapse_rearms_retention :
  (forall (payload Ext : Type) (key : string) (value : iface payload)
          (order : list string) (bc : Keyed.BatchCollapse payload Ext)
          (w : World Ext (string * iface payload)),
      (forall i, (reads w < i)%nat ->
         clock w i <= Time_Add (now_of w) (Keyed.RetentionDuration (Keyed.conf bc)) /\
         clock w i <= Keyed.lastExec bc + Keyed.MaxDuration (Keyed.conf bc)) ->
      let s1 := Keyed.Collapse key value bc w in
      let s2 := Keyed.step (Keyed.OpTurn order) s1 in
      fst s2 = fst s1 /\ since (snd s1) (snd s2) = [])
  /\
  (forall (payload Ext : Type) (value : iface payload)
          (bc : SingleSlot.BatchCollapse payload Ext)
          (w : World Ext (iface payload)),
      (forall i, (reads w < i)%nat ->
         clock w i <= Time_Add (now_of w)
                        (SingleSlot.RetentionDuration (SingleSlot.conf bc)) /\
         clock w i <= SingleSlot.lastExec bc
                      + SingleSlot.MaxDuration (SingleSlot.conf bc)) ->
      let s1 := SingleSlot.Collapse value bc w in
      let s2 := SingleSlot.step SingleSlot.OpTurn s1 in
      fst s2 = fst s1 /\ since (snd s1) (snd s2) = []).
Proof.
  split.
  - intros payload Ext key value order bc w Hq s1 s2. subst s2.
    rewrite keyed_step_Turn.
    destruct (Keyed.ctxDone (fst s1)); [split; [reflexivity | apply since_refl]|].
    destruct (keyed_range_quiet order (fst s1) (snd s1)) as [Q1 Q2].
    + subst s1. rewrite keyed_Collapse_run. simpl. intros i Hi.
      unfold Time_Add, now_of in Hq.
      destruct (Hq i) as [A B]; [lia|].
      destruct (Keyed.KeyExists bc key); simpl; split; assumption.
    + split; [assumption | apply since_same_calls; assumption].
  - intros payload Ext value bc w Hq s1 s2. subst s2.
    rewrite single_step_Turn.
    destruct (SingleSlot.ctxDone (fst s1)); [split; [reflexivity | apply since_refl]|].
    destruct (single_doProcess_quiet (fst s1) (snd s1)) as [Q1 Q2].
    + subst s1. rewrite single_Collapse_run. simpl.
      unfold Time_Add, now_of in Hq. apply (Hq (S (reads w))). lia.
    + subst s1. rewrite single_Collapse_run. simpl.
      unfold Time_Add, now_of in Hq.
      destruct (Hq (S (S (reads w)))) as [_ B]; [lia|].
      destruct (SingleSlot.notNil (SingleSlot.Value bc)); simpl; assumption.
    + split; [assumption | apply since_same_calls; assumption].
Qed.

(** The fresh test engines on [soon_clock]: 10 is collapsed at instant
    1000, the loop turns at instant 2000, before 1000 + 5000; nothing is
    delivered. *)
Lemma X3_collapse_rearms_retention_witness :
  (let s1 := Keyed.Collapse "a" (Some 10) (fst (keyed_created soon_clock))
               (snd (keyed_created soon_clock)) in
   let s2 := Keyed.step (Keyed.OpTurn ["a"]) s1 in
   Keyed.Values (fst s2) !! "a" = Some (Some 10) /\ since (snd s1) (snd s2) = [])
  /\
  (let s1 := SingleSlot.Collapse (Some 10) (fst (single_created soon_clock))
               (snd (single_created soon_clock)) in
   let s2 := SingleSlot.step SingleSlot.OpTurn s1 in
   SingleSlot.Value (fst s2) = Some 10 /\ since (snd s1) (snd s2) = []).
Proof.
  split; cbv zeta.
  - destruct (proj1 X3_collapse_rearms_retention Z Z "a" (Some 10) ["a"]
                (fst (keyed_created soon_clock)) (snd (keyed_created soon_clock)))
      as [H1 H2].
    + intros i _.
      change (soon_clock i <= 6000 /\ soon_clock i <= 61000).
      pose proof (soon_clock_bound i). lia.
    + split; [rewrite H1; reflexivity | exact H2].
  - destruct (proj2 X3_collapse_rearms_retention Z Z (Some 10)
                (fst (single_created soon_clock)) (snd (single_created soon_clock)))
      as [H1 H2].
    + intros i _.
      change (soon_clock i <= 6000 /\ soon_clock i <= 61000).
      pose proof (soon_clock_bound i). lia.
    + split; [rewrite H1; reflexivity | exact H2].
Defined.

(** X4 — One flush per timed pass.  In the keyed engine the keys share
    one pair of watermarks, and a flush moves both.  With non-negative
    [RetentionDuration] and [MaxDuration] and the clock standing still
    during the pass, a pass without force delivers at most one entry,
    however many are pending. *)
Theorem X4_keyed_timed_pass_flushes_at_most_one :
  forall (payload Ext : Type) (order : list string)
         (bc : Keyed.BatchCollapse payload Ext)
         (w : World Ext (string * iface payload)) (now : Time),
    steady now w ->
    0 <= Keyed.RetentionDuration (Keyed.conf bc) ->
    0 <= Keyed.MaxDuration (Keyed.conf bc) ->
    (length (since w (snd (Keyed.doProcess false order bc w))) <= 1)%nat.
Proof.
  intros payload Ext order bc w now Hs Hrd Hmd. unfold Keyed.doProcess.
  destruct (keyed_range_at_most_one order bc w now Hs Hrd Hmd) as (l & Hl & Hlen).
  rewrite (since_app _ _ _ Hl). exact Hlen.
Qed.

(** Two overdue keys, the clock standing at 7000: the pass delivers one. *)
Lemma X4_keyed_timed_pass_flushes_at_most_one_witness :
  steady 7000 (snd keyed_two_pending) /\
  0 <= Keyed.RetentionDuration (Keyed.conf (fst keyed_two_pending)) /\
  0 <= Keyed.MaxDuration (Keyed.conf (fst keyed_two_pending)) /\
  (length (since (snd keyed_two_pending)
             (snd (Keyed.doProcess false ["a"; "b"] (fst keyed_two_pending)
                     (snd keyed_two_pending)))) <= 1)%nat.
Proof.
  assert (Hs : steady 7000 (snd keyed_two_pending)).
  { intros i Hi. change (reads (snd keyed_two_pending)) with 4%nat in Hi.
    change (clock (snd keyed_two_pending) i)
      with (if (i <? 4)%nat then 1000 else 7000).
    destruct (Nat.ltb_spec i 4); [lia | reflexivity]. }
  split; [exact Hs|].
  assert (Hrd : 0 <= Keyed.RetentionDuration (Keyed.conf (fst keyed_two_pending)))
    by (vm_compute; discriminate).
  assert (Hmd : 0 <= Keyed.MaxDuration (Keyed.conf (fst keyed_two_pending)))
    by (vm_compute; discriminate).
  split; [exact Hrd|]. split; [exact Hmd|].
  apply (X4_keyed_timed_pass_flushes_at_most_one Z Z ["a"; "b"]
           (fst keyed_two_pending) (snd keyed_two_pending) 7000 Hs Hrd Hmd).
Defined.

(** X5 — The ceiling.  When the clock does not run backwards and has
    passed [lastExec + MaxDuration], a turn of the running driver loop
    delivers a pending value to a non-nil callback and removes it, whatever
    [nextExec] is, that is however recently [Collapse] was called.  In the
    keyed engine this is the first key of the pass. *)
Theorem X5_max_duration_ceiling :
  (forall (payload Ext : Type) (key : string) (rest : list string)
          (value : iface payload) (bc : Keyed.BatchCollapse payload Ext)
          (w : World Ext (string * iface payload))
          (f : iface payload -> Ext -> Ext),
      Keyed.ctxDone bc = false ->
      Keyed.Values bc !! key = Some value ->
      Keyed.ExecuteFunc (Keyed.conf bc) = Some f ->
      Keyed.lastExec bc + Keyed.MaxDuration (Keyed.conf bc) < now_of w ->
      now_of w <= clock w (S (reads w)) ->
      let s' := Keyed.step (Keyed.OpTurn (key :: rest)) (bc, w) in
      (exists l, since w (snd s') = (key, value) :: l) /\
      Keyed.Values (fst s') !! key = None)
  /\
  (forall (payload Ext : Type) (x : payload)
          (bc : SingleSlot.BatchCollapse payload Ext)
          (w : World Ext (iface payload))
          (f : iface payload -> Ext -> Ext),
      SingleSlot.ctxDone bc = false ->
      SingleSlot.Value bc = Some x ->
      SingleSlot.ExecuteFunc (SingleSlot.conf bc) = Some f ->
      SingleSlot.lastExec bc + SingleSlot.MaxDuration (SingleSlot.conf bc) < now_of w ->
      now_of w <= clock w (S (reads w)) ->
      let s' := SingleSlot.step SingleSlot.OpTurn (bc, w) in
      since w (snd s') = [Some x] /\ SingleSlot.Value (fst s') = None).
Proof.
  split.
  - intros payload Ext key rest value bc w f Hd Hv Hf Hlt Hmono s'. subst s'.
    rewrite keyed_step_Turn. cbn [fst snd]. rewrite Hd.
    rewrite keyed_range_cons, Hv.
    destruct (keyed_entry_ceiling key value bc w f Hv Hf Hlt Hmono) as [Hl Hg].
    set (e := Keyed.doProcess_entry false key value bc w) in *.
    destruct (keyed_range_spec false rest (fst e) (snd e)) as (l & Hl' & _).
    split.
    + exists l. apply since_app. rewrite Hl', Hl, <- app_assoc. reflexivity.
    + apply keyed_range_absent. assumption.
  - intros payload Ext x bc w f Hd Hv Hf Hlt Hmono s'. subst s'.
    rewrite single_step_Turn. simpl fst; simpl snd. rewrite Hd.
    destruct (single_doProcess_ceiling bc w f x Hv Hf Hlt Hmono) as [Hl Hg].
    split; [apply since_app; assumption | assumption].
Qed.

(** The test engines on [far_clock]: created at instant 1000, 10 collapsed
    at instant 100000, which puts [nextExec] at 105000; the loop turns at
    instant 100000, past 1000 + 60000, and delivers 10. *)
Lemma X5_max_duration_ceiling_witness :
  (let s := Keyed.run [Keyed.OpCollapse "a" (Some 10)] (keyed_created far_clock) in
   now_of (snd s) < Keyed.nextExec (fst s) /\
   Keyed.lastExec (fst s) + Keyed.MaxDuration (Keyed.conf (fst s)) < now_of (snd s) /\
   let s' := Keyed.step (Keyed.OpTurn ["a"]) (fst s, snd s) in
   (exists l, since (snd s) (snd s') = ("a", Some 10) :: l) /\
   Keyed.Values (fst s') !! "a" = None)
  /\
  (let s := SingleSlot.run [SingleSlot.OpCollapse (Some 10)]
              (single_created far_clock) in
   now_of (snd s) < SingleSlot.nextExec (fst s) /\
   SingleSlot.lastExec (fst s) + SingleSlot.MaxDuration (SingleSlot.conf (fst s))
     < now_of (snd s) /\
   let s' := SingleSlot.step SingleSlot.OpTurn (fst s, snd s) in
   since (snd s) (snd s') = [Some 10] /\ SingleSlot.Value (fst s') = None).
Proof.
  split; cbv zeta.
  - split; [reflexivity|]. split; [reflexivity|].
    apply (proj1 X5_max_duration_ceiling Z Z "a" [] (Some 10) _ _ test_callback);
      [reflexivity | reflexivity | reflexivity | reflexivity | vm_compute; discriminate].
  - split; [reflexivity|]. split; [reflexivity|].
    apply (proj2 X5_max_duration_ceiling Z Z 10 _ _ test_callback);
      [reflexivity | reflexivity | reflexivity | reflexivity | vm_compute; discriminate].
Defined.

(** X6 — [Cancel] drains the keyed engine exactly.  With a non-nil
    callback, [Cancel] leaves the map empty, and what it delivers is every
    pending pair once and nothing else, in the order of the iteration. *)
Theorem X6_keyed_cancel_drains_exactly :
  forall (payload Ext : Type) (order : list string)
         (bc : Keyed.BatchCollapse payload Ext)
         (w : World Ext (string * iface payload))
         (f : iface payload -> Ext -> Ext),
    Keyed.ExecuteFunc (Keyed.conf bc) = Some f ->
    Keyed.order_of bc order ->
    let s' := Keyed.Cancel order bc w in
    Keyed.Values (fst s') = ∅ /\
    fst <$> since w (snd s') = order /\
    since w (snd s') ≡ₚ map_to_list (Keyed.Values bc).
Proof.
  intros payload Ext order bc w f. apply keyed_Cancel_exact.
Qed.

(** Two keys pending, iterated as ["b"; "a"]: both are delivered, in that
    order, and the map is empty. *)
Lemma X6_keyed_cancel_drains_exactly_witness :
  Keyed.order_of (fst keyed_two_pending) ["b"; "a"] /\
  let s' := Keyed.Cancel ["b"; "a"] (fst keyed_two_pending) (snd keyed_two_pending) in
  Keyed.Values (fst s') = ∅ /\
  fst <$> since (snd keyed_two_pending) (snd s') = ["b"; "a"] /\
  since (snd keyed_two_pending) (snd s')
  ≡ₚ map_to_list (Keyed.Values (fst keyed_two_pending)).
Proof.
  assert (Hord : Keyed.order_of (fst keyed_two_pending) ["b"; "a"]).
  { apply (bool_decide_unpack _). vm_compute. reflexivity. }
  split; [exact Hord|].
  apply (X6_keyed_cancel_drains_exactly Z Z ["b"; "a"] (fst keyed_two_pending)
           (snd keyed_two_pending) test_callback eq_refl Hord).
Defined.

(** X7 — [KeyExists] follows the pending keys.  After [Collapse(key, v)],
    [KeyExists(k)] is true for [k = key] and is what it was for every other
    key; after a [Cancel] with a non-nil callback it is false for every
    key. *)
Theorem X7_keyed_KeyExists_round_trip :
  (forall (payload Ext : Type) (key k : string) (value : iface payload)
          (bc : Keyed.BatchCollapse payload Ext)
          (w : World Ext (string * iface payload)),
      Keyed.KeyExists (fst (Keyed.Collapse key value bc w)) k =
        bool_decide (k = key) || Keyed.KeyExists bc k)
  /\
  (forall (payload Ext : Type) (order : list string) (k : string)
          (bc : Keyed.BatchCollapse payload Ext)
          (w : World Ext (string * iface payload))
          (f : iface payload -> Ext -> Ext),
      Keyed.ExecuteFunc (Keyed.conf bc) = Some f ->
      Keyed.order_of bc order ->
      Keyed.KeyExists (fst (Keyed.Cancel order bc w)) k = false).
Proof.
  split.
  - intros payload Ext key k value bc w.
    unfold Keyed.KeyExists at 1. rewrite keyed_Collapse_Values.
    unfold Keyed.KeyExists.
    destruct (decide (k = key)) as [->|Hne].
    + rewrite bool_decide_eq_true_2 by reflexivity. simpl.
      destruct (Keyed.Values bc !! key) as [x|] eqn:Hk.
      * rewrite Hk. reflexivity.
      * rewrite lookup_insert_eq. reflexivity.
    + rewrite bool_decide_eq_false_2 by assumption. simpl.
      destruct (Keyed.Values bc !! key) as [x|]; [reflexivity|].
      rewrite lookup_insert_ne by congruence. reflexivity.
  - intros payload Ext order k bc w f Hf Hord.
    destruct (keyed_Cancel_exact order bc w f Hf Hord) as (He & _).
    unfold Keyed.KeyExists. rewrite He, lookup_empty. reflexivity.
Qed.

(** On the fresh test engine: ["a"] exists after its collapse, ["b"] does
    not; after a cancel neither exists. *)
Lemma X7_keyed_KeyExists_round_trip_witness :
  (Keyed.KeyExists (fst (keyed_pending (Some test_callback))) "a" = true /\
   Keyed.KeyExists (fst (keyed_pending (Some test_callback))) "b" = false)
  /\
  (Keyed.order_of (fst (keyed_pending (Some test_callback))) ["a"] /\
   Keyed.KeyExists
     (fst (Keyed.Cancel ["a"] (fst (keyed_pending (Some test_callback)))
             (snd (keyed_pending (Some test_callback))))) "a" = false).
Proof.
  split.
  - split.
    + apply (proj1 X7_keyed_KeyExists_round_trip Z Z "a" "a" (Some 10)
               (fst (keyed_fresh (Some test_callback)))
               (snd (keyed_fresh (Some test_callback)))).
    + apply (proj1 X7_keyed_KeyExists_round_trip Z Z "a" "b" (Some 10)
               (fst (keyed_fresh (Some test_callback)))
               (snd (keyed_fresh (Some test_callback)))).
  - assert (Hord : Keyed.order_of (fst (keyed_pending (Some test_callback))) ["a"])
      by (split; [apply NoDup_singleton | reflexivity]).
    split; [exact Hord|].
    apply (proj2 X7_keyed_KeyExists_round_trip Z Z ["a"] "a"
             (fst (keyed_pending (Some test_callback)))
             (snd (keyed_pending (Some test_callback))) test_callback eq_refl Hord).
Defined.

(** X8 — Signals in the single-slot engine.  The goroutine handles one
    signal and ends.  If that signal is [os.Interrupt] its empty case does
    nothing: the engine and the world are untouched, and since the
    goroutine is gone no later signal, [SIGTERM] included, reaches the
    engine.  If the first signal is [SIGTERM] the engine is cancelled once,
    whatever signals follow. *)
Theorem X8_single_signal_handling :
  forall (payload Ext : Type) (s : SingleSlot.system payload Ext)
         (sigs : list Signal),
    single_signals (Interrupt :: sigs) (s, true) = (s, false) /\
    single_signals (SIGTERM :: sigs) (s, true)
    = (SingleSlot.Cancel (fst s) (snd s), false).
Proof.
  intros payload Ext [bc w] sigs. split.
  - exact (single_signals_done sigs (bc, w)).
  - exact (single_signals_done sigs (SingleSlot.Cancel bc w)).
Qed.



(** X10 — The flush decision on a moving clock.  The condition of
    [doProcess] reads the clock once for the retention disjunct and once
    more for the ceiling disjunct.  When the second reading is not before
    the first, a pending entry with a non-nil callback is flushed if the
    timing policy holds at the first reading, and only if it holds at the
    second. *)
Theorem X10_flush_decision_between_readings :
  (forall (payload Ext : Type) (force : bool) (key : string) (value : iface payload)
          (bc : Keyed.BatchCollapse payload Ext)
          (w : World Ext (string * iface payload))
          (f : iface payload -> Ext -> Ext),
      Keyed.Values bc !! key = Some value ->
      Keyed.ExecuteFunc (Keyed.conf bc) = Some f ->
      now_of w <= clock w (S (reads w)) ->
      let e := Keyed.doProcess_entry force key value bc w in
      (spec_shouldFlush (now_of w) (Keyed.lastExec bc) (Keyed.nextExec bc)
         (Keyed.MaxDuration (Keyed.conf bc)) force = true ->
       since w (snd e) = [(key, value)]) /\
      (since w (snd e) = [(key, value)] ->
       spec_shouldFlush (clock w (S (reads w))) (Keyed.lastExec bc) (Keyed.nextExec bc)
         (Keyed.MaxDuration (Keyed.conf bc)) force = true))
  /\
  (forall (payload Ext : Type) (x : payload)
          (bc : SingleSlot.BatchCollapse payload Ext)
          (w : World Ext (iface payload))
          (f : iface payload -> Ext -> Ext),
      SingleSlot.Value bc = Some x ->
      SingleSlot.ExecuteFunc (SingleSlot.conf bc) = Some f ->
      now_of w <= clock w (S (reads w)) ->
      let e := SingleSlot.doProcess bc w in
      (spec_shouldFlush (now_of w) (SingleSlot.lastExec bc) (SingleSlot.nextExec bc)
         (SingleSlot.MaxDuration (SingleSlot.conf bc)) false = true ->
       since w (snd e) = [Some x]) /\
      (since w (snd e) = [Some x] ->
       spec_shouldFlush (clock w (S (reads w))) (SingleSlot.lastExec bc)
         (SingleSlot.nextExec bc) (SingleSlot.MaxDuration (SingleSlot.conf bc)) false
       = true)).
Proof.
  split.
  - intros payload Ext force key value bc w f Hv Hf Hmono e. subst e.
    destruct (keyed_timeCondition_between force bc w Hmono) as [B1 B2].
    destruct (keyed_entry_cases force key value bc w)
      as [(_ & Hl & _ & _ & [Hk | [Hn | Ht]]) | (f' & _ & _ & Ht & _ & Hl & _)].
    + apply keyed_KeyExists_false in Hk. congruence.
    + congruence.
    + rewrite (since_same_calls _ _ Hl). split; [|discriminate].
      intros H. apply B1 in H. congruence.
    + rewrite (since_app _ _ _ Hl). split; [reflexivity | auto].
  - intros payload Ext x bc w f Hv Hf Hmono e. subst e.
    destruct (single_timeCondition_between bc w Hmono) as [B1 B2].
    destruct (single_doProcess_cases bc w)
      as [(_ & Hl & _ & _ & [Hk | [Hn | Ht]]) | (f' & _ & _ & Ht & _ & Hl & _)].
    + congruence.
    + congruence.
    + rewrite (since_same_calls _ _ Hl). split; [|discriminate].
      intros H. apply B1 in H. congruence.
    + rewrite (since_app _ _ _ Hl), Hv. split; [reflexivity | auto].
Qed.

(** The overdue test engines on [drift_clock]: the readings of the
    condition are 19000 and 25000, [nextExec] is 18000; the policy holds at
    19000 and the entry is flushed. *)
Lemma X10_flush_decision_between_readings_witness :
  (let bc := fst (keyed_overdue drift_clock) in
   let w := snd (keyed_overdue drift_clock) in
   now_of w <= clock w (S (reads w)) /\
   spec_shouldFlush (now_of w) (Keyed.lastExec bc) (Keyed.nextExec bc)
     (Keyed.MaxDuration (Keyed.conf bc)) false = true /\
   since w (snd (Keyed.doProcess_entry false "a" (Some 10) bc w)) = [("a", Some 10)])
  /\
  (let bc := fst (single_overdue drift_clock) in
   let w := snd (single_overdue drift_clock) in
   now_of w <= clock w (S (reads w)) /\
   spec_shouldFlush (now_of w) (SingleSlot.lastExec bc) (SingleSlot.nextExec bc)
     (SingleSlot.MaxDuration (SingleSlot.conf bc)) false = true /\
   since w (snd (SingleSlot.doProcess bc w)) = [Some 10]).
Proof.
  split; cbv zeta.
  - assert (Hm : now_of (snd (keyed_overdue drift_clock))
                 <= clock (snd (keyed_overdue drift_clock))
                      (S (reads (snd (keyed_overdue drift_clock)))))
      by (vm_compute; discriminate).
    split; [exact Hm|]. split; [reflexivity|].
    apply (proj1 X10_flush_decision_between_readings Z Z false "a" (Some 10)
             (fst (keyed_overdue drift_clock)) (snd (keyed_overdue drift_clock))
             test_callback eq_refl eq_refl Hm).
    reflexivity.
  - assert (Hm : now_of (snd (single_overdue drift_clock))
                 <= clock (snd (single_overdue drift_clock))
                      (S (reads (snd (single_overdue drift_clock)))))
      by (vm_compute; discriminate).
    split; [exact Hm|]. split; [reflexivity|].
    apply (proj2 X10_flush_decision_between_readings Z Z 10
             (fst (single_overdue drift_clock)) (snd (single_overdue drift_clock))
             test_callback eq_refl eq_refl Hm).
    reflexivity.
Defined.

(** X11 — The watermarks are never ahead of the clock.  For an engine made
    by [CreateBatchCollapse] on a clock that does not run backwards, after
    any operations: [lastExec] is at most every reading still to come, and
    [nextExec] at most such a reading plus [RetentionDuration]; so a
    deadline is never more than [RetentionDuration] away. *)
Theorem X11_watermarks_not_ahead_of_clock :
  (forall (payload Ext : Type) (c : Keyed.Config payload Ext)
          (w : World Ext (string * iface payload)) (ops : list (Keyed.op payload)),
      monotone w ->
      let s := Keyed.run ops (Keyed.CreateBatchCollapse c w) in
      forall i, (reads (snd s) <= i)%nat ->
        Keyed.lastExec (fst s) <= clock (snd s) i /\
        Keyed.nextExec (fst s) <= clock (snd s) i + Keyed.RetentionDuration c)
  /\
  (forall (payload Ext : Type) (c : SingleSlot.Config payload Ext)
          (w : World Ext (iface payload)) (ops : list (SingleSlot.op payload)),
      monotone w ->
      let s := SingleSlot.run ops (SingleSlot.CreateBatchCollapse c w) in
      forall i, (reads (snd s) <= i)%nat ->
        SingleSlot.lastExec (fst s) <= clock (snd s) i /\
        SingleSlot.nextExec (fst s) <= clock (snd s) i + SingleSlot.RetentionDuration c).
Proof.
  split.
  - intros payload Ext c w ops Hm s i Hi. subst s.
    destruct (keyed_created_readings c w ops) as (_ & Hc & a & b & Ha & Hb & H1 & H2).
    rewrite Hc, H1, H2.
    pose proof (Hm a i). pose proof (Hm b i). lia.
  - intros payload Ext c w ops Hm s i Hi. subst s.
    destruct (single_created_readings c w ops) as (_ & Hc & a & b & Ha & Hb & H1 & H2).
    rewrite Hc, H1, H2.
    pose proof (Hm a i). pose proof (Hm b i). lia.
Qed.

(** The test engines on [drift_clock] after a collapse, a flushing turn and
    another collapse: [lastExec] is 25000, [nextExec] is 42000 (the
    collapse read 37000), and the next reading is 43000. *)
Lemma X11_watermarks_not_ahead_of_clock_witness :
  (let w := mkWorld drift_clock 0%nat 10 [] in
   let s := Keyed.run [Keyed.OpCollapse "a" (Some 10); Keyed.OpTurn ["a"];
                       Keyed.OpCollapse "a" (Some 20)]
              (Keyed.CreateBatchCollapse (keyed_conf (Some test_callback)) w) in
   monotone w /\
   Keyed.lastExec (fst s) <= clock (snd s) (reads (snd s)) /\
   Keyed.nextExec (fst s) <= clock (snd s) (reads (snd s)) + 5000)
  /\
  (let w := mkWorld drift_clock 0%nat 10 [] in
   let s := SingleSlot.run [SingleSlot.OpCollapse (Some 10); SingleSlot.OpTurn;
                            SingleSlot.OpCollapse (Some 20)]
              (SingleSlot.CreateBatchCollapse (single_conf (Some test_callback)) w) in
   monotone w /\
   SingleSlot.lastExec (fst s) <= clock (snd s) (reads (snd s)) /\
   SingleSlot.nextExec (fst s) <= clock (snd s) (reads (snd s)) + 5000).
Proof.
  split; cbv zeta.
  - split; [apply drift_clock_monotone|].
    apply (proj1 X11_watermarks_not_ahead_of_clock Z Z
             (keyed_conf (Some test_callback)) (mkWorld drift_clock 0%nat 10 [])
             [Keyed.OpCollapse "a" (Some 10); Keyed.OpTurn ["a"];
              Keyed.OpCollapse "a" (Some 20)]
             (drift_clock_monotone 0%nat 10 [])).
    apply Nat.le_refl.
  - split; [apply drift_clock_monotone|].
    apply (proj2 X11_watermarks_not_ahead_of_clock Z Z
             (single_conf (Some test_callback)) (mkWorld drift_clock 0%nat 10 [])
             [SingleSlot.OpCollapse (Some 10); SingleSlot.OpTurn;
              SingleSlot.OpCollapse (Some 20)]
             (drift_clock_monotone 0%nat 10 [])).
    apply Nat.le_refl.
Defined.

(** X12 — Accounting on the timer path of the single-slot engine.  Along
    every sequence of collapses and loop turns (no [Cancel]), the values
    delivered so far, in order, followed by the value in the slot, are the
    value first in the slot followed by the non-nil payloads that
    [Collapse] stored, in order: each stored value is delivered at most
    once, in the order of arrival, and none is lost. *)
Theorem X12_single_timer_accounting :
  forall (payload Ext : Type) (ops : list (SingleSlot.op payload))
         (s : SingleSlot.system payload Ext),
    forallb single_not_cancel ops = true ->
    since (snd s) (snd (SingleSlot.run ops s)) ++ slot (fst (SingleSlot.run ops s))
    = slot (fst s) ++ single_accepted ops s.
Proof.
  intros payload Ext ops s. apply single_run_accounting.
Qed.

(** On [drift_clock]: 10 is stored, 20 is refused, the turn delivers 10,
    30 is stored: delivered [10], in the slot 30, stored [10; 30]. *)
Lemma X12_single_timer_accounting_witness :
  let ops := [SingleSlot.OpCollapse (Some 10); SingleSlot.OpCollapse (Some 20);
              SingleSlot.OpTurn; SingleSlot.OpCollapse (Some 30)] in
  let s := single_created drift_clock in
  forallb single_not_cancel ops = true /\
  single_accepted ops s = [Some 10; Some 30] /\
  since (snd s) (snd (SingleSlot.run ops s)) ++ slot (fst (SingleSlot.run ops s))
  = slot (fst s) ++ single_accepted ops s.
Proof.
  cbv zeta. split; [reflexivity|]. split; [reflexivity|].
  apply (X12_single_timer_accounting Z Z). reflexivity.
Defined.

(** X13 — Collapses of different keys commute.  Whatever is pending, two
    [Collapse] calls for different keys leave the same map in either
    order. *)
Theorem X13_keyed_collapse_commutes :
  forall (payload Ext : Type) (a b : string) (va vb : iface payload)
         (s : Keyed.system payload Ext),
    a <> b ->
    Keyed.Values (fst (Keyed.run [Keyed.OpCollapse a va; Keyed.OpCollapse b vb] s)) =
    Keyed.Values (fst (Keyed.run [Keyed.OpCollapse b vb; Keyed.OpCollapse a va] s)).
Proof.
  intros payload Ext a b va vb s. apply keyed_Collapse_commute.
Qed.

(** On the engine where ["a"] is pending with 10: collapsing ["a"] with 11
    and ["b"] with 20 in either order leaves ["a"] at 10 and ["b"] at 20. *)
Lemma X13_keyed_collapse_commutes_witness :
  "a" <> "b" /\
  Keyed.Values
    (fst (Keyed.run [Keyed.OpCollapse "a" (Some 11); Keyed.OpCollapse "b" (Some 20)]
            (keyed_pending (Some test_callback)))) =
  Keyed.Values
    (fst (Keyed.run [Keyed.OpCollapse "b" (Some 20); Keyed.OpCollapse "a" (Some 11)]
            (keyed_pending (Some test_callback)))).
Proof.
  assert (Hne : "a" <> "b") by discriminate.
  split; [exact Hne|].
  apply (X13_keyed_collapse_commutes Z Z "a" "b" (Some 11) (Some 20)
           (keyed_pending (Some test_callback)) Hne).
Defined.
